(** * AIBasketStrategy: valuation, allocation registry, rebalancing and
    liquidation of the basket strategy contract.

    The contract is embedded as pure functions over an explicit state.  A
    Solidity call either returns or reverts; [result] records which, and
    [transact] gives the transaction-level semantics (a revert discards every
    write of the call).  Unsigned 256-bit arithmetic is checked (pragma
    ^0.8.20): an overflow is a [Panic], never a wrap-around. *)

From stdpp Require Import gmap list strings.
From Stdlib Require Import ZArith Lia.

Open Scope Z_scope.

(** ** Errors and results *)

Abbreviation address := Z (only parsing).

Inductive error :=
| RequireFailed (msg : string)   (* a require(cond, msg) whose condition is false *)
| Panic (code : Z)         (* 0x11 overflow/underflow, 0x12 division by zero, 0x32 index *)
| CallFailed               (* an external call outside try/catch reverted *)
| Unauthorized.            (* Ownable: caller is not the owner *)

Inductive result (A : Type) :=
| Ok (a : A)
| Revert (e : error).
Arguments Ok {A} a.
Arguments Revert {A} e.

#[global] Instance result_ret : MRet result := fun A a => Ok a.
#[global] Instance result_bind : MBind result := fun A B f r =>
  match r with
  | Ok a => f a
  | Revert e => Revert e
  end.

Definition require (P : Prop) `{Decision P} (msg : string) : result unit :=
  if decide P then Ok tt else Revert (RequireFailed msg).

(** ** Checked uint256 arithmetic *)

Definition MAX_UINT256 : Z := 2 ^ 256 - 1.

Definition checked_add (a b : Z) : result Z :=
  if decide (a + b ≤ MAX_UINT256) then Ok (a + b) else Revert (Panic 17).

Definition checked_sub (a b : Z) : result Z :=
  if decide (b ≤ a) then Ok (a - b) else Revert (Panic 17).

Definition checked_mul (a b : Z) : result Z :=
  if decide (a * b ≤ MAX_UINT256) then Ok (a * b) else Revert (Panic 17).

Definition checked_div (a b : Z) : result Z :=
  if decide (b = 0) then Revert (Panic 18) else Ok (a / b).

Definition checked_pow (b e : Z) : result Z :=
  if decide (b ^ e ≤ MAX_UINT256) then Ok (b ^ e) else Revert (Panic 17).

(** ** Data model *)

Record TokenAllocation := mkAllocation {
  token : address;
  percentage : Z            (* basis points, 10000 = 100% *)
}.

(** What an AggregatorV3Interface answers: latestRoundData().answer and
    decimals(). *)
Record Feed := mkFeed {
  answer : Z;
  feedDecimals : Z
}.

(** The world outside the contract's own storage: ERC20 balances of the
    strategy, allowances it granted (token, spender), deployed price feeds
    by address, and the tokens' decimals(). *)
Record Env := mkEnv {
  balanceOf : gmap address Z;
  allowance : gmap (address * address) Z;
  feeds : gmap address Feed;
  decimals : address → Z
}.

(** One call of router.swapExactTokensForTokens as issued by the strategy,
    and whether the router executed it. *)
Record RouterCall := mkRouterCall {
  amountIn : Z;
  amountOutMin : Z;
  path : list address;
  executed : bool
}.

(** The exchange behind the router address: getAmountsOut is a view;
    swapExactTokensForTokens either reverts ([None]) or leaves a new outside
    world.  A call that reverts inside the router is [None], and the try
    statement around the call catches it.  [hasCode] tells whether a
    contract is deployed at the router address at all (the constructor and
    setRouter accept any nonzero address): without one the quote comes back
    empty, decoding it as an array of amounts fails in the strategy itself,
    and that failure is outside what try/catch catches.  A router that
    answers has code, so the flag is looked at only when no quote comes
    back.  The recipient (the strategy itself) and the deadline
    (block.timestamp + 300) are the same in every call and are left out. *)
Record Router := mkRouter {
  getAmountsOut : Env → Z → list address → option (list Z);
  swapExactTokensForTokens : Env → Z → Z → list address → option Env;
  hasCode : bool
}.

Record State := mkState {
  owner : address;
  vault : address;
  router : address;
  asset : address;          (* immutable *)
  weth : address;           (* immutable *)
  allocations : list TokenAllocation;
  allowedTokens : gset address;
  priceFeeds : gmap address address;
  env : Env;
  swapCalls : list RouterCall   (* ghost: router swap calls so far, oldest first *)
}.

Definition MAX_BPS : Z := 10000.
Definition MAX_SLIPPAGE : Z := 500.
Definition MAX_ALLOCATIONS : Z := 10.

Definition set_allocations (l : list TokenAllocation) (s : State) : State :=
  mkState (owner s) (vault s) (router s) (asset s) (weth s) l
          (allowedTokens s) (priceFeeds s) (env s) (swapCalls s).

Definition set_env (e : Env) (s : State) : State :=
  mkState (owner s) (vault s) (router s) (asset s) (weth s) (allocations s)
          (allowedTokens s) (priceFeeds s) e (swapCalls s).

Definition log_call (c : RouterCall) (s : State) : State :=
  mkState (owner s) (vault s) (router s) (asset s) (weth s) (allocations s)
          (allowedTokens s) (priceFeeds s) (env s) (swapCalls s ++ [c]).

(** IERC20(t).balanceOf(address(this)) of a token contract [t].  An address
    without a balance entry reads as 0 here; on the contract the call
    reverts where no token is deployed (see [holds_none] below). *)
Definition balance (s : State) (t : address) : Z :=
  default 0 (balanceOf (env s) !! t).

(** priceFeeds[t]; an unset mapping slot reads as address(0). *)
Definition priceFeed (s : State) (t : address) : address :=
  default 0 (priceFeeds s !! t).

(** feed.latestRoundData() / feed.decimals(): the call reverts when no
    aggregator is deployed at the address. *)
Definition callFeed (s : State) (feed : address) : result Feed :=
  match feeds (env s) !! feed with
  | Some f => Ok f
  | None => Revert CallFailed
  end.

(** SafeERC20.forceApprove(token, spender, amount) on a standard ERC20. *)
Definition forceApprove (t spender : address) (amount : Z) (s : State) : State :=
  set_env (mkEnv (balanceOf (env s))
                 (<[(t, spender) := amount]> (allowance (env s)))
                 (feeds (env s)) (decimals (env s))) s.

(** A revert rolls the whole call back. *)
Definition transact (f : State → result State) (s : State) : State :=
  match f s with
  | Ok s' => s'
  | Revert _ => s
  end.

(** ** Valuation engine *)

Definition _getTokenValueInAsset (s : State) (tok : address) (tokenAmount : Z)
  : result Z :=
  if decide (tok = asset s) then Ok tokenAmount
  else if decide (tokenAmount = 0) then Ok 0
  else
    let tokenFeed := priceFeed s tok in
    let assetFeed := priceFeed s (asset s) in
    _ ← require (tokenFeed ≠ 0) "AIBasketStrategy: no token feed";
    _ ← require (assetFeed ≠ 0) "AIBasketStrategy: no asset feed";
    tf ← callFeed s tokenFeed;
    af ← callFeed s assetFeed;
    let tokenPrice := answer tf in
    let assetPrice := answer af in
    _ ← require (0 < tokenPrice ∧ 0 < assetPrice) "AIBasketStrategy: invalid price";
    let tokenDec := decimals (env s) tok in
    let assetDec := decimals (env s) (asset s) in
    _ ← require (feedDecimals tf = feedDecimals af)
                "AIBasketStrategy: feed decimals mismatch";
    let exp := assetDec - tokenDec in
    if decide (0 ≤ exp) then
      x ← checked_mul tokenAmount tokenPrice;
      p ← checked_pow 10 exp;
      y ← checked_mul x p;
      checked_div y assetPrice
    else
      x ← checked_mul tokenAmount tokenPrice;
      p ← checked_pow 10 (- exp);
      d ← checked_mul assetPrice p;
      checked_div x d.

Definition _convertAssetValueToTokenAmount (s : State) (tok : address)
  (assetAmount : Z) : result Z :=
  if decide (tok = asset s) then Ok assetAmount
  else if decide (assetAmount = 0) then Ok 0
  else
    let tokenFeed := priceFeed s tok in
    let assetFeed := priceFeed s (asset s) in
    _ ← require (tokenFeed ≠ 0) "AIBasketStrategy: no token feed";
    _ ← require (assetFeed ≠ 0) "AIBasketStrategy: no asset feed";
    tf ← callFeed s tokenFeed;
    af ← callFeed s assetFeed;
    let tokenPrice := answer tf in
    let assetPrice := answer af in
    _ ← require (0 < tokenPrice ∧ 0 < assetPrice) "AIBasketStrategy: invalid price";
    let tokenDec := decimals (env s) tok in
    let assetDec := decimals (env s) (asset s) in
    _ ← require (feedDecimals tf = feedDecimals af)
                "AIBasketStrategy: feed decimals mismatch";
    let exp := tokenDec - assetDec in
    if decide (0 ≤ exp) then
      x ← checked_mul assetAmount assetPrice;
      p ← checked_pow 10 exp;
      y ← checked_mul x p;
      checked_div y tokenPrice
    else
      x ← checked_mul assetAmount assetPrice;
      p ← checked_pow 10 (- exp);
      d ← checked_mul tokenPrice p;
      checked_div x d.

(** ** Portfolio accessor *)

Fixpoint totalAssets_loop (s : State) (allocs : list TokenAllocation)
  (totalValue : Z) : result Z :=
  match allocs with
  | [] => Ok totalValue
  | a :: rest =>
      let tok := token a in
      if decide (tok ≠ asset s) then
        let tokenBalance := balance s tok in
        if decide (0 < tokenBalance) then
          v ← _getTokenValueInAsset s tok tokenBalance;
          totalValue' ← checked_add totalValue v;
          totalAssets_loop s rest totalValue'
        else totalAssets_loop s rest totalValue
      else totalAssets_loop s rest totalValue
  end.

Definition totalAssets (s : State) : result Z :=
  totalAssets_loop s (allocations s) (balance s (asset s)).

(** ** Swap execution adapter *)

Definition _buildPath (s : State) (from to : address) : list address :=
  if decide (from = to) then [from]
  else if decide (from = weth s ∨ to = weth s) then [from; to]
  else [from; weth s; to].

(** amountsOut[i] with Solidity's bounds check. *)
Definition array_get (l : list Z) (i : Z) : result Z :=
  match l !! Z.to_nat i with
  | Some x => Ok x
  | None => Revert (Panic 50)
  end.

Definition _swapToken (R : Router) (fromToken toToken : address) (amount : Z)
  (s : State) : result State :=
  if decide (fromToken = toToken ∨ amount = 0) then Ok s
  else
    let path := _buildPath s fromToken toToken in
    match getAmountsOut R (env s) amount path with
    | None =>
        if hasCode R then Ok s          (* catch: no quote, skip this swap *)
        else Revert CallFailed          (* nothing to call: not caught *)
    | Some amountsOut =>
        i ← checked_sub (Z.of_nat (length amountsOut)) 1;
        expected ← array_get amountsOut i;
        x ← checked_mul expected (MAX_BPS - MAX_SLIPPAGE);
        amountOutMin ← checked_div x MAX_BPS;
        let s1 := forceApprove fromToken (router s) amount s in
        match swapExactTokensForTokens R (env s1) amount amountOutMin path with
        | Some env' =>
            Ok (log_call (mkRouterCall amount amountOutMin path true)
                         (set_env env' s1))
        | None =>                       (* catch: reset approval *)
            Ok (log_call (mkRouterCall amount amountOutMin path false)
                         (forceApprove fromToken (router s) 0 s1))
        end
    end.

(** ** Rebalancer *)

(** The body of the loop of _rebalancePortfolio for allocations[i] = a. *)
Definition rebalance_step (R : Router) (totalValue : Z) (a : TokenAllocation)
  (s : State) : result State :=
  let tok := token a in
  x ← checked_mul totalValue (percentage a);
  targetValue ← checked_div x MAX_BPS;
  currentValue ←
    (if decide (tok = asset s) then Ok (balance s (asset s))
     else
       let tokenBalance := balance s tok in
       if decide (0 < tokenBalance)
       then _getTokenValueInAsset s tok tokenBalance
       else Ok 0);
  threshold ← checked_div totalValue 100;
  lhs ← checked_add currentValue threshold;
  if decide (lhs < targetValue) then
    amountToBuy ← checked_sub targetValue currentValue;
    _swapToken R (asset s) tok amountToBuy s
  else
    rhs ← checked_add targetValue threshold;
    if decide (rhs < currentValue) then
      amountToSell ← checked_sub currentValue targetValue;
      if decide (tok ≠ asset s) then
        tokenAmountToSell ← _convertAssetValueToTokenAmount s tok amountToSell;
        let actualBalance := balance s tok in
        let tokenAmountToSell' :=
          if decide (actualBalance < tokenAmountToSell)
          then actualBalance else tokenAmountToSell in
        _swapToken R tok (asset s) tokenAmountToSell' s
      else Ok s
    else Ok s.

Fixpoint rebalance_loop (R : Router) (totalValue : Z)
  (allocs : list TokenAllocation) (s : State) : result State :=
  match allocs with
  | [] => Ok s
  | a :: rest =>
      s' ← rebalance_step R totalValue a s;
      rebalance_loop R totalValue rest s'
  end.

Definition _rebalancePortfolio (R : Router) (s : State) : result State :=
  if decide (allocations s = []) then Ok s
  else
    totalValue ← totalAssets s;
    if decide (totalValue = 0) then Ok s
    else rebalance_loop R totalValue (allocations s) s.

(** ** Liquidity liquidator *)

Definition liquidate_step (R : Router) (neededAmount totalValue : Z)
  (a : TokenAllocation) (s : State) : result State :=
  let tok := token a in
  if decide (tok = asset s) then Ok s
  else
    let tokenBalance := balance s tok in
    if decide (tokenBalance = 0) then Ok s
    else
      tokenValue ← _getTokenValueInAsset s tok tokenBalance;
      x ← checked_mul tokenValue neededAmount;
      liquidateValue ← checked_div x totalValue;
      if decide (0 < liquidateValue) then
        liquidateAmount ← _convertAssetValueToTokenAmount s tok liquidateValue;
        let liquidateAmount' :=
          if decide (tokenBalance < liquidateAmount)
          then tokenBalance else liquidateAmount in
        _swapToken R tok (asset s) liquidateAmount' s
      else Ok s.

Fixpoint liquidate_loop (R : Router) (neededAmount totalValue : Z)
  (allocs : list TokenAllocation) (s : State) : result State :=
  match allocs with
  | [] => Ok s
  | a :: rest =>
      s' ← liquidate_step R neededAmount totalValue a s;
      liquidate_loop R neededAmount totalValue rest s'
  end.

Definition _liquidateForWithdrawal (R : Router) (neededAmount : Z) (s : State)
  : result State :=
  if decide (allocations s = []) then Ok s
  else
    totalValue ← totalAssets s;
    if decide (totalValue = 0) then Ok s
    else liquidate_loop R neededAmount totalValue (allocations s) s.

(** ** Access control *)

Definition onlyOwner (caller : address) (s : State) : result unit :=
  if decide (caller = owner s) then Ok tt else Revert Unauthorized.

Definition onlyVault (caller : address) (s : State) : result unit :=
  require (caller = vault s) "AIBasketStrategy: only vault".

(** ** Allocation registry *)

(** The loop of setAllocations over newAllocations, pushing into storage and
    accumulating totalPercentage. *)
Fixpoint setAllocations_loop (newAllocations : list TokenAllocation)
  (s : State) (totalPercentage : Z) : result (State * Z) :=
  match newAllocations with
  | [] => Ok (s, totalPercentage)
  | a :: rest =>
      _ ← require (token a ≠ 0) "AIBasketStrategy: zero token";
      _ ← require (token a ∈ allowedTokens s) "AIBasketStrategy: token not allowed";
      _ ← require (0 < percentage a) "AIBasketStrategy: zero percentage";
      _ ← require (priceFeed s (token a) ≠ 0) "AIBasketStrategy: no price feed";
      let s' := set_allocations (allocations s ++ [a]) s in
      totalPercentage' ← checked_add totalPercentage (percentage a);
      setAllocations_loop rest s' totalPercentage'
  end.

Definition setAllocations (R : Router) (caller : address)
  (newAllocations : list TokenAllocation) (s : State) : result State :=
  _ ← onlyOwner caller s;
  _ ← require (Z.of_nat (length newAllocations) ≤ MAX_ALLOCATIONS)
              "AIBasketStrategy: too many allocations";
  let s0 := set_allocations [] s in      (* delete allocations *)
  '(s1, totalPercentage) ← setAllocations_loop newAllocations s0 0;
  _ ← require (totalPercentage ≤ MAX_BPS)
              "AIBasketStrategy: total percentage exceeds 100%";
  s2 ← (if decide (0 < balance s1 (asset s1))
        then _rebalancePortfolio R s1 else Ok s1);
  _ ← totalAssets s2;                    (* emit AIRebalance(this.totalAssets(), ..) *)
  Ok s2.

Definition allowToken (caller tok : address) (s : State) : result State :=
  _ ← onlyOwner caller s;
  _ ← require (tok ≠ 0) "AIBasketStrategy: zero token";
  Ok (mkState (owner s) (vault s) (router s) (asset s) (weth s) (allocations s)
              ({[tok]} ∪ allowedTokens s) (priceFeeds s) (env s) (swapCalls s)).

Definition disallowToken (caller tok : address) (s : State) : result State :=
  _ ← onlyOwner caller s;
  _ ← require (tok ≠ asset s) "AIBasketStrategy: cannot disallow base asset";
  Ok (mkState (owner s) (vault s) (router s) (asset s) (weth s) (allocations s)
              (allowedTokens s ∖ {[tok]}) (priceFeeds s) (env s) (swapCalls s)).

Definition setPriceFeed (caller tok feed : address) (s : State) : result State :=
  _ ← onlyOwner caller s;
  _ ← require (tok ≠ 0) "AIBasketStrategy: zero token";
  _ ← require (feed ≠ 0) "AIBasketStrategy: zero feed";
  Ok (mkState (owner s) (vault s) (router s) (asset s) (weth s) (allocations s)
              (allowedTokens s) (<[tok := feed]> (priceFeeds s)) (env s)
              (swapCalls s)).

(** ** Entry points of the vault *)

Definition invest (R : Router) (caller : address) (amount : Z) (s : State)
  : result State :=
  _ ← onlyVault caller s;
  _ ← require (0 < amount) "AIBasketStrategy: zero amount";
  if decide (allocations s ≠ []) then _rebalancePortfolio R s else Ok s.

(** asset.safeTransfer(vault, amount): the strategy's balance goes down. *)
Definition transferOut (amount : Z) (s : State) : result State :=
  if decide (amount ≤ balance s (asset s)) then
    Ok (set_env (mkEnv (<[asset s := balance s (asset s) - amount]>
                          (balanceOf (env s)))
                       (allowance (env s)) (feeds (env s)) (decimals (env s))) s)
  else Revert CallFailed.

Definition freeFunds (R : Router) (caller : address) (amount : Z) (s : State)
  : result State :=
  _ ← onlyVault caller s;
  _ ← require (0 < amount) "AIBasketStrategy: zero amount";
  let assetBalance := balance s (asset s) in
  s1 ← (if decide (assetBalance < amount)
        then d ← checked_sub amount assetBalance; _liquidateForWithdrawal R d s
        else Ok s);
  let finalBalance := balance s1 (asset s1) in
  let toTransfer := if decide (finalBalance < amount) then finalBalance else amount in
  if decide (0 < toTransfer) then transferOut toTransfer s1 else Ok s1.

(** ** Emergency exit *)

Fixpoint emergencyExit_loop (R : Router) (allocs : list TokenAllocation)
  (s : State) : result State :=
  match allocs with
  | [] => Ok s
  | a :: rest =>
      let tok := token a in
      if decide (tok = asset s) then emergencyExit_loop R rest s
      else
        let bal := balance s tok in
        if decide (0 < bal) then
          s' ← _swapToken R tok (asset s) bal s;
          emergencyExit_loop R rest s'
        else emergencyExit_loop R rest s
  end.

Definition emergencyExitAllPositions (R : Router) (caller : address) (s : State)
  : result State :=
  _ ← onlyOwner caller s;
  s' ← emergencyExit_loop R (allocations s) s;
  Ok (set_allocations [] s').       (* delete allocations *)

(** ** The specification's vocabulary *)

(** The spec's error classes, read off the revert reasons of the code. *)
Definition ValidationError (e : error) : Prop :=
  ∃ msg, e = RequireFailed msg ∧
    msg ∈ ["AIBasketStrategy: too many allocations";
           "AIBasketStrategy: zero token";
           "AIBasketStrategy: token not allowed";
           "AIBasketStrategy: zero percentage";
           "AIBasketStrategy: no price feed";
           "AIBasketStrategy: total percentage exceeds 100%"].

Definition OracleError (e : error) : Prop :=
  ∃ msg, e = RequireFailed msg ∧
    msg ∈ ["AIBasketStrategy: no token feed";
           "AIBasketStrategy: no asset feed";
           "AIBasketStrategy: invalid price";
           "AIBasketStrategy: feed decimals mismatch"].

Definition sumZ (l : list Z) : Z := foldr Z.add 0 l.

Definition sum_weights (l : list TokenAllocation) : Z :=
  sumZ (percentage <$> l).

(** A list setAllocations has to reject (spec 4.2). *)
Definition invalid_allocation (s : State) (a : TokenAllocation) : Prop :=
  token a = 0 ∨ token a ∉ allowedTokens s ∨ percentage a = 0 ∨
  priceFeed s (token a) = 0.

Definition invalid_list (s : State) (l : list TokenAllocation) : Prop :=
  MAX_ALLOCATIONS < Z.of_nat (length l) ∨
  Exists (invalid_allocation s) l ∨
  MAX_BPS < sum_weights l.

(** The non-base tokens the strategy currently holds. *)
Definition is_other_holding (s : State) (t : address) : Prop :=
  t ≠ asset s ∧ 0 < balance s t.

#[global] Instance is_other_holding_dec s t : Decision (is_other_holding s t).
Proof. unfold is_other_holding. apply _. Defined.

Definition otherHoldings (s : State) : list address :=
  filter (is_other_holding s) (elements (dom (balanceOf (env s)))).

(** valueOf applied to the whole Holding of [t] (0 where valueOf fails). *)
Definition holdingValue (s : State) (t : address) : Z :=
  match _getTokenValueInAsset s t (balance s t) with
  | Ok v => v
  | Revert _ => 0
  end.

(** Total Value in the spec's words (section 3): the base-asset Holding plus
    the converted value of every other Holding. *)
Definition spec_totalValue (s : State) : Z :=
  balance s (asset s) + sumZ (holdingValue s <$> otherHoldings s).

(** currentValue of step 3b: the base-asset Holding counts directly, other
    tokens go through valueOf. *)
Definition currentValueOf (s : State) (t : address) : result Z :=
  if decide (t = asset s) then Ok (balance s (asset s))
  else _getTokenValueInAsset s t (balance s t).

(** Step 3 of the Rebalancer in the spec's words (4.3, a to e), over
    unbounded integers. *)
Definition spec_rebalance_step (R : Router) (totalValue : Z)
  (a : TokenAllocation) (s : State) : result State :=
  let targetValue := totalValue * percentage a / 10000 in
  let threshold := totalValue / 100 in
  currentValue ← currentValueOf s (token a);
  if decide (currentValue + threshold < targetValue) then
    _swapToken R (asset s) (token a) (targetValue - currentValue) s
  else if decide (currentValue > targetValue + threshold) then
    tokenAmount ← _convertAssetValueToTokenAmount s (token a)
                    (currentValue - targetValue);
    _swapToken R (token a) (asset s)
               (Z.min tokenAmount (balance s (token a))) s
  else Ok s.

(** An allocation whose deviation from target is within the threshold. *)
Definition within_threshold (totalValue : Z) (s : State) (a : TokenAllocation)
  : Prop :=
  ∃ currentValue, currentValueOf s (token a) = Ok currentValue ∧
    let targetValue := totalValue * percentage a / 10000 in
    let threshold := totalValue / 100 in
    ¬ (currentValue + threshold < targetValue) ∧
    ¬ (currentValue > targetValue + threshold).

(** liquidateValue of spec 4.5: the holding's share of Total Value applied
    to the needed amount. *)
Definition spec_liquidateValue (holdingValue neededAmount totalValue : Z) : Z :=
  holdingValue * neededAmount / totalValue.

(** The Liquidator's step in the spec's words (4.5) for a non-base token
    with a Holding. *)
Definition spec_liquidate_step (R : Router) (neededAmount totalValue : Z)
  (a : TokenAllocation) (s : State) : result State :=
  tokenValue ← _getTokenValueInAsset s (token a) (balance s (token a));
  let liquidateValue := spec_liquidateValue tokenValue neededAmount totalValue in
  if decide (0 < liquidateValue) then
    tokenAmount ← _convertAssetValueToTokenAmount s (token a) liquidateValue;
    _swapToken R (token a) (asset s)
               (Z.min tokenAmount (balance s (token a))) s
  else Ok s.

(** A swap out of token [t] was issued. *)
Definition sold (calls : list RouterCall) (t : address) : Prop :=
  Exists (λ c, head (path c) = Some t) calls.

(** The two scale factors of the conversion between [tok] and the base
    asset: valueOf is amount * num / den, amountOf is value * den / num. *)
Definition conv_num (s : State) (tokenPrice : Z) (tok : address) : Z :=
  tokenPrice * 10 ^ Z.max 0 (decimals (env s) (asset s) - decimals (env s) tok).

Definition conv_den (s : State) (assetPrice : Z) (tok : address) : Z :=
  assetPrice * 10 ^ Z.max 0 (decimals (env s) tok - decimals (env s) (asset s)).

(** Both Price Source Bindings a conversion of [tok] reads are set and
    their aggregators answer [tf] (token) and [af] (base asset). *)
Definition bound_feeds (s : State) (tok : address) (tf af : Feed) : Prop :=
  tok ≠ asset s ∧
  priceFeed s tok ≠ 0 ∧ priceFeed s (asset s) ≠ 0 ∧
  feeds (env s) !! priceFeed s tok = Some tf ∧
  feeds (env s) !! priceFeed s (asset s) = Some af.

(** A router whose successful quotes are usable: the amounts array is not
    empty and its last entry times 9500 fits in 256 bits. *)
Definition usable_quotes (R : Router) : Prop :=
  ∀ e amount p amounts, getAmountsOut R e amount p = Some amounts →
    ∃ expected, last amounts = Some expected ∧
                expected * (MAX_BPS - MAX_SLIPPAGE) ≤ MAX_UINT256.

(** The minimum output of spec 4.4. *)
Definition spec_minOutput (expectedOutput : Z) : Z :=
  expectedOutput * (10000 - 500) / 10000.

(** ** The remaining entry points of the contract *)

(** Why a deployment fails: Ownable's constructor refuses the zero owner,
    then the four require statements of the constructor body. *)
Inductive deploy_error :=
| InvalidOwner
| DeployRequire (msg : string).

(** constructor(_asset, _vault, _router, _weth, _owner) Ownable(_owner),
    deployed into the outside world [e]. *)
Definition constructor (_asset _vault _router _weth _owner : address) (e : Env)
  : deploy_error + State :=
  if decide (_owner = 0) then inl InvalidOwner
  else if decide (_asset = 0) then inl (DeployRequire "AIBasketStrategy: asset zero")
  else if decide (_vault = 0) then inl (DeployRequire "AIBasketStrategy: vault zero")
  else if decide (_router = 0) then inl (DeployRequire "AIBasketStrategy: router zero")
  else if decide (_weth = 0) then inl (DeployRequire "AIBasketStrategy: weth zero")
  else inr (mkState _owner _vault _router _asset _weth []
                    {[_asset]}      (* allowedTokens[address(_asset)] = true *)
                    ∅ e []).

Definition setVault (caller _vault : address) (s : State) : result State :=
  _ ← onlyOwner caller s;
  _ ← require (_vault ≠ 0) "AIBasketStrategy: vault zero";
  Ok (mkState (owner s) _vault (router s) (asset s) (weth s) (allocations s)
              (allowedTokens s) (priceFeeds s) (env s) (swapCalls s)).

Definition setRouter (caller _router : address) (s : State) : result State :=
  _ ← onlyOwner caller s;
  _ ← require (_router ≠ 0) "AIBasketStrategy: router zero";
  Ok (mkState (owner s) (vault s) _router (asset s) (weth s) (allocations s)
              (allowedTokens s) (priceFeeds s) (env s) (swapCalls s)).

(** emergencyWithdraw(token): the whole balance goes to the owner. *)
Definition emergencyWithdraw (caller tok : address) (s : State) : result State :=
  _ ← onlyOwner caller s;
  let bal := balance s tok in
  if decide (0 < bal) then
    Ok (set_env (mkEnv (<[tok := bal - bal]> (balanceOf (env s)))
                       (allowance (env s)) (feeds (env s)) (decimals (env s))) s)
  else Ok s.

(** The view functions. *)
Definition getAllocations (s : State) : list TokenAllocation := allocations s.
Definition getAllocationsCount (s : State) : Z := Z.of_nat (length (allocations s)).
Definition getTokenBalance (s : State) (tok : address) : Z := balance s tok.
Definition isTokenAllowed (s : State) (tok : address) : bool :=
  bool_decide (tok ∈ allowedTokens s).

(** The state-changing external functions the contract declares, and their
    dispatch for a given msg.sender. *)
Inductive Call :=
| CallInvest (amount : Z)
| CallFreeFunds (amount : Z)
| CallSetAllocations (newAllocations : list TokenAllocation)
| CallAllowToken (tok : address)
| CallDisallowToken (tok : address)
| CallSetPriceFeed (tok feed : address)
| CallSetVault (_vault : address)
| CallSetRouter (_router : address)
| CallEmergencyExitAllPositions
| CallEmergencyWithdraw (tok : address).

Definition execute (R : Router) (caller : address) (c : Call) (s : State)
  : result State :=
  match c with
  | CallInvest amount => invest R caller amount s
  | CallFreeFunds amount => freeFunds R caller amount s
  | CallSetAllocations l => setAllocations R caller l s
  | CallAllowToken tok => allowToken caller tok s
  | CallDisallowToken tok => disallowToken caller tok s
  | CallSetPriceFeed tok feed => setPriceFeed caller tok feed s
  | CallSetVault v => setVault caller v s
  | CallSetRouter r => setRouter caller r s
  | CallEmergencyExitAllPositions => emergencyExitAllPositions R caller s
  | CallEmergencyWithdraw tok => emergencyWithdraw caller tok s
  end.

(** Calls only the vault may make. *)
Definition vault_call (c : Call) : bool :=
  match c with
  | CallInvest _ | CallFreeFunds _ => true
  | _ => false
  end.

(** ** Predicates of the additional properties *)

(** Two states with the same contract storage (they may differ in the
    outside world and in the log of router calls). *)
Definition same_storage (s s' : State) : Prop :=
  owner s' = owner s ∧ vault s' = vault s ∧ router s' = router s ∧
  asset s' = asset s ∧ weth s' = weth s ∧ allocations s' = allocations s ∧
  allowedTokens s' = allowedTokens s ∧ priceFeeds s' = priceFeeds s.

(** What the storage always satisfies. *)
Definition registry_invariant (s : State) : Prop :=
  Z.of_nat (length (allocations s)) ≤ MAX_ALLOCATIONS ∧
  Forall (λ a, token a ≠ 0 ∧ 0 < percentage a ∧ priceFeed s (token a) ≠ 0)
         (allocations s) ∧
  sum_weights (allocations s) ≤ MAX_BPS ∧
  asset s ∈ allowedTokens s ∧
  asset s ≠ 0 ∧ vault s ≠ 0 ∧ router s ≠ 0 ∧ weth s ≠ 0.

Definition set_owner (o : address) (s : State) : State :=
  mkState o (vault s) (router s) (asset s) (weth s) (allocations s)
          (allowedTokens s) (priceFeeds s) (env s) (swapCalls s).

(** The states a deployed strategy can be in: after deployment, after any
    call by anyone on any exchange, after the outside world moved on its own
    (prices, transfers in), and after Ownable's inherited ownership
    functions changed the owner. *)
Inductive reachable : State → Prop :=
| reach_deploy a v r w o e s :
    constructor a v r w o e = inr s → reachable s
| reach_call R caller c s :
    reachable s → reachable (transact (execute R caller c) s)
| reach_env e s :
    reachable s → reachable (set_env e s)
| reach_owner o s :
    reachable s → reachable (set_owner o s).

(** A listed entry is valid for setAllocations. *)
Definition valid_allocation (s : State) (a : TokenAllocation) : Prop :=
  token a ≠ 0 ∧ token a ∈ allowedTokens s ∧ 0 < percentage a ∧
  priceFeed s (token a) ≠ 0.

(** The calls a pass appended to the log. *)
Definition issued (s s' : State) (new : list RouterCall) : Prop :=
  swapCalls s' = swapCalls s ++ new.

(** A router call that sells [tok] into [to]. *)
Definition trades (from to : address) (c : RouterCall) : Prop :=
  head (path c) = Some from ∧ last (path c) = Some to ∧ amountIn c ≠ 0.

(** The exchange quotes [amount] along the route from [from] to [to], and
    the quote is usable: its last amount is [expected], and the slippage
    arithmetic on it fits in 256 bits. *)
Definition quoted (R : Router) (s : State) (from to : address)
  (amount expected : Z) : Prop :=
  ∃ amounts,
    getAmountsOut R (env s) amount (_buildPath s from to) = Some amounts ∧
    last amounts = Some expected ∧
    expected * (MAX_BPS - MAX_SLIPPAGE) ≤ MAX_UINT256.

(** The strategy has handed [amount] of [from] to the exchange for [to],
    which took it from [s] to [s']: after approving [amount] to the router
    it called swapExactTokensForTokens with [amount], the minimum output of
    spec 4.4 on the quoted [expected], and the built route.  The call is in
    the log; when the exchange accepted it, [s'] lives in the world the
    exchange left, and when the exchange reverted, no Holding has moved and
    the approval is back to 0.  The storage is the same either way. *)
Definition traded (R : Router) (from to : address) (amount expected : Z)
  (s s' : State) : Prop :=
  let s1 := forceApprove from (router s) amount s in
  let route := _buildPath s from to in
  let minOut := spec_minOutput expected in
  same_storage s s' ∧
  match swapExactTokensForTokens R (env s1) amount minOut route with
  | Some env' =>
      swapCalls s' = swapCalls s ++ [mkRouterCall amount minOut route true] ∧
      env s' = env'
  | None =>
      swapCalls s' = swapCalls s ++ [mkRouterCall amount minOut route false] ∧
      balanceOf (env s') = balanceOf (env s) ∧
      allowance (env s') !! (from, router s) = Some 0
  end.

(** [t] is a token contract of the outside world of which the strategy
    holds nothing: its balanceOf answers 0.  An address without a balance
    entry is no token contract: a balanceOf call reverts there, where
    [balance] reads 0, so what is stated about a call that reads the balance
    of tokens its caller names is stated for token contracts. *)
Definition holds_none (s : State) (t : address) : Prop :=
  balanceOf (env s) !! t = Some 0.

(** An exchange that fills every order the strategy can pay for: for an
    amount whose quote fits the slippage arithmetic, the quote succeeds, and
    once [amount] is approved to [spender] and held, the execution succeeds,
    takes exactly [amount] of the first token of the path and touches no
    balance other than those of the two ends of the path. *)
Definition fills_orders (R : Router) (spender : address) : Prop :=
  ∀ e amount p from to,
    head p = Some from → last p = Some to → from ≠ to →
    0 < amount → amount ≤ default 0 (balanceOf e !! from) →
    amount * (MAX_BPS - MAX_SLIPPAGE) ≤ MAX_UINT256 →
    ∃ amounts expected,
      getAmountsOut R e amount p = Some amounts ∧
      last amounts = Some expected ∧
      expected * (MAX_BPS - MAX_SLIPPAGE) ≤ MAX_UINT256 ∧
      ∀ m, ∃ e',
        swapExactTokensForTokens R
          (mkEnv (balanceOf e) (<[(from, spender) := amount]> (allowance e))
                 (feeds e) (decimals e)) amount m p = Some e' ∧
        default 0 (balanceOf e' !! from)
          = default 0 (balanceOf e !! from) - amount ∧
        ∀ t, t ≠ from → t ≠ to → balanceOf e' !! t = balanceOf e !! t.

(** The same calls, read against the whole list of a pass. *)
Definition pass_call (s : State) (allocs : list TokenAllocation)
  (sell_only : bool) (c : RouterCall) : Prop :=
  ∃ a, a ∈ allocs ∧ token a ≠ asset s ∧
       (trades (token a) (asset s) c ∨
        sell_only = false ∧ trades (asset s) (token a) c).

(** The two sale steps with the cap at the Holding left out. *)
Definition liquidate_step_uncapped (R : Router) (neededAmount totalValue : Z)
  (a : TokenAllocation) (s : State) : result State :=
  let tok := token a in
  if decide (tok = asset s) then Ok s
  else
    let tokenBalance := balance s tok in
    if decide (tokenBalance = 0) then Ok s
    else
      tokenValue ← _getTokenValueInAsset s tok tokenBalance;
      x ← checked_mul tokenValue neededAmount;
      liquidateValue ← checked_div x totalValue;
      if decide (0 < liquidateValue) then
        liquidateAmount ← _convertAssetValueToTokenAmount s tok liquidateValue;
        _swapToken R tok (asset s) liquidateAmount s
      else Ok s.

Definition rebalance_step_uncapped (R : Router) (totalValue : Z)
  (a : TokenAllocation) (s : State) : result State :=
  let tok := token a in
  x ← checked_mul totalValue (percentage a);
  targetValue ← checked_div x MAX_BPS;
  currentValue ←
    (if decide (tok = asset s) then Ok (balance s (asset s))
     else
       let tokenBalance := balance s tok in
       if decide (0 < tokenBalance)
       then _getTokenValueInAsset s tok tokenBalance
       else Ok 0);
  threshold ← checked_div totalValue 100;
  lhs ← checked_add currentValue threshold;
  if decide (lhs < targetValue) then
    amountToBuy ← checked_sub targetValue currentValue;
    _swapToken R (asset s) tok amountToBuy s
  else
    rhs ← checked_add targetValue threshold;
    if decide (rhs < currentValue) then
      amountToSell ← checked_sub currentValue targetValue;
      if decide (tok ≠ asset s) then
        tokenAmountToSell ← _convertAssetValueToTokenAmount s tok amountToSell;
        _swapToken R tok (asset s) tokenAmountToSell s
      else Ok s
    else Ok s.

(** ** SimpleStrategy *)

Module Simple.

(** The storage of SimpleStrategy, its own address, and the ERC20 balances
    it holds by token. *)
Record SState := mkSState {
  s_self : address;
  s_owner : address;
  s_vault : address;
  s_asset : address;             (* immutable *)
  s_balances : gmap address Z
}.

Definition s_balance (s : SState) (t : address) : Z :=
  default 0 (s_balances s !! t).

Definition with_balances (b : gmap address Z) (s : SState) : SState :=
  mkSState (s_self s) (s_owner s) (s_vault s) (s_asset s) b.

(** IERC20(t).safeTransfer(to, amount) by the strategy on a standard ERC20:
    reverts on an insufficient balance; a transfer to itself moves
    nothing.  (Some tokens also refuse the zero recipient; nothing proved
    below depends on a transfer to it succeeding.) *)
Definition safeTransfer (t to : address) (amount : Z) (s : SState)
  : result SState :=
  if decide (s_balance s t < amount) then Revert CallFailed
  else if decide (to = s_self s) then Ok s
  else Ok (with_balances (<[t := s_balance s t - amount]> (s_balances s)) s).

Definition onlyVault (caller : address) (s : SState) : result unit :=
  require (caller = s_vault s) "SimpleStrategy: only vault".

Definition onlyOwner (caller : address) (s : SState) : result unit :=
  if decide (caller = s_owner s) then Ok tt else Revert Unauthorized.

Definition invest (caller : address) (amount : Z) (s : SState) : result SState :=
  _ ← onlyVault caller s;
  _ ← require (0 < amount) "SimpleStrategy: zero amount";
  Ok s.

Definition freeFunds (caller : address) (amount : Z) (s : SState)
  : result SState :=
  _ ← onlyVault caller s;
  _ ← require (0 < amount) "SimpleStrategy: zero amount";
  safeTransfer (s_asset s) (s_vault s) amount s.

Definition totalAssets (s : SState) : Z := s_balance s (s_asset s).

Definition setVault (caller _vault : address) (s : SState) : result SState :=
  _ ← onlyOwner caller s;
  _ ← require (_vault ≠ 0) "SimpleStrategy: vault zero";
  Ok (mkSState (s_self s) (s_owner s) _vault (s_asset s) (s_balances s)).

Definition sweep (caller tok to : address) (s : SState) : result SState :=
  _ ← onlyOwner caller s;
  _ ← require (tok ≠ s_asset s) "SimpleStrategy: cannot sweep asset";
  safeTransfer tok to (s_balance s tok) s.

End Simple.

(** ** The vault's guards *)

Module Vault.

(** The custom errors of the two OpenZeppelin guards the vault inherits, its
    own require messages, and whatever the inherited ERC-4626 code raises. *)
Inductive vault_error :=
| ReentrancyGuardReentrantCall
| EnforcedPause
| VaultRequire (msg : string)
| Inherited (code : Z).

(** The part of the vault's state its guards and helpers read: the
    reentrancy status, the pause flag, the shares and the asset balances by
    holder; [rest] stands for everything the inherited ERC-4626 code
    keeps. *)
Record VState (T : Type) := mkVState {
  entered : bool;
  paused : bool;
  shares : gmap address Z;
  assetBalances : gmap address Z;
  rest : T
}.
Arguments mkVState {T}.
Arguments entered {T}.
Arguments paused {T}.
Arguments shares {T}.
Arguments assetBalances {T}.
Arguments rest {T}.

Definition set_entered {T} (b : bool) (s : VState T) : VState T :=
  mkVState b (paused s) (shares s) (assetBalances s) (rest s).

(** A guarded function body: it reverts or leaves a state and a value. *)
Definition body (T A : Type) : Type := VState T → vault_error + (VState T * A).

(** ReentrancyGuard.nonReentrant: revert if already entered; otherwise mark
    entered, run the body, and clear the mark. *)
Definition nonReentrant {T A} (f : body T A) : body T A := λ s,
  if entered s then inl ReentrancyGuardReentrantCall
  else match f (set_entered true s) with
       | inl e => inl e
       | inr (s', a) => inr (set_entered false s', a)
       end.

(** Pausable.whenNotPaused *)
Definition whenNotPaused {T A} (f : body T A) : body T A := λ s,
  if paused s then inl EnforcedPause else f s.

(** The vault's overrides of redeem and deposit: their guards, around the
    code after the guards ([redeem_body], [deposit_body]: liquidity check,
    strategy.freeFunds and the inherited ERC-4626 logic). *)
Definition redeem {T} (redeem_body : Z → address → address → body T Z)
  (sh : Z) (receiver owner_ : address) : body T Z :=
  whenNotPaused (nonReentrant (redeem_body sh receiver owner_)).

Definition deposit {T} (deposit_body : Z → address → body T Z)
  (assets : Z) (receiver : address) : body T Z :=
  whenNotPaused (deposit_body assets receiver).

(** A call whose returned value is dropped. *)
Definition discard {T A} (f : body T A) : body T unit := λ s,
  match f s with
  | inl e => inl e
  | inr (s', _) => inr (s', tt)
  end.

Definition withdrawAll {T} (redeem_body : Z → address → address → body T Z)
  (caller : address) : body T unit :=
  nonReentrant (whenNotPaused (λ s,
    let sh := default 0 (shares s !! caller) in
    if decide (0 < sh) then discard (redeem redeem_body sh caller caller) s
    else inl (VaultRequire "Vault: nothing to withdraw"))).

Definition depositAll {T} (deposit_body : Z → address → body T Z)
  (caller : address) : body T unit :=
  nonReentrant (whenNotPaused (λ s,
    let bal := default 0 (assetBalances s !! caller) in
    if decide (0 < bal) then discard (deposit deposit_body bal caller) s
    else inl (VaultRequire "Vault: nothing to deposit"))).

End Vault.

(** ** Concrete worlds used by the examples *)

Module Ex.

Definition USDT : address := 1.
Definition WETH : address := 2.
Definition A : address := 3.
Definition B : address := 4.
Definition X : address := 5.
Definition ROUTER : address := 50.
Definition OWNER : address := 60.
Definition VAULT : address := 61.

Definition feedOf (t : address) : address := 100 + t.

Definition prices (pA dA : Z) : gmap address Feed :=
  {[ feedOf USDT := mkFeed 1 8; feedOf A := mkFeed pA dA;
     feedOf B := mkFeed 1 8; feedOf X := mkFeed 1 8 ]}.

Definition mkWorld (allocs : list TokenAllocation) (bals : gmap address Z)
  (fds : gmap address Feed) : State :=
  mkState OWNER VAULT ROUTER USDT WETH allocs
          {[USDT; A; B; X]}
          {[ USDT := feedOf USDT; A := feedOf A; B := feedOf B; X := feedOf X ]}
          (mkEnv bals ∅ fds (λ _, 6)) [].

(** Quotes one for one and executes when allowance and balance suffice. *)
Definition parRouter : Router :=
  mkRouter
    (λ _ amount p, Some ((λ _, amount) <$> p))
    (λ e amount _ p,
       match head p, last p with
       | Some from, Some to =>
           let bal := default 0 (balanceOf e !! from) in
           let alw := default 0 (allowance e !! (from, ROUTER)) in
           if decide (amount ≤ bal ∧ amount ≤ alw) then
             Some (mkEnv
                     (<[to := default 0 (balanceOf e !! to) + amount]>
                        (<[from := bal - amount]> (balanceOf e)))
                     (<[(from, ROUTER) := alw - amount]> (allowance e))
                     (feeds e) (decimals e))
           else None
       | _, _ => None
       end)
    true.

(** No liquidity: the router reverts on every quote. *)
Definition deadRouter : Router :=
  mkRouter (λ _ _ _, None) (λ _ _ _ _, None) true.

(** Quotes one for one, but every execution reverts. *)
Definition revertingRouter : Router :=
  mkRouter (λ _ amount p, Some ((λ _, amount) <$> p)) (λ _ _ _ _, None) true.

(** No contract at the router address. *)
Definition noRouter : Router :=
  mkRouter (λ _ _ _, None) (λ _ _ _ _, None) false.

(** Token A priced at [pA] base units, everything else at par, all tokens
    with 6 decimals; the strategy holds [bals]. *)
Definition world (allocs : list TokenAllocation) (bals : gmap address Z)
  (pA dA : Z) : State :=
  mkWorld allocs bals (prices pA dA).

(** The strategy after an emergency exit whose swap failed: no Target
    Portfolio, 100 of the base asset and 5 of A. *)
Definition stranded : State := world [] {[USDT := 100; A := 5]} 1 8.

(** A and B listed once each, and held. *)
Definition balanced : State :=
  world [mkAllocation A 6000; mkAllocation B 4000]
        {[USDT := 0; A := 595; B := 405]} 1 8.

(** The spec's scenario (section 8): A 6000 bps, B 4000 bps, Total Value
    1000, A worth 550 and B worth 450. *)
Definition skewed : State :=
  world [mkAllocation A 6000; mkAllocation B 4000]
        {[USDT := 0; A := 550; B := 450]} 1 8.


(** Only A is listed; the strategy also holds 100 of X. *)
Definition unlisted_X : State :=
  world [mkAllocation A 10000] {[A := 100; X := 100]} 1 8.

(** Weights 5000 + 6000 = 11000 bps. *)
Definition overweight_list : list TokenAllocation :=
  [mkAllocation A 5000; mkAllocation B 6000].

(** A freshly deployed strategy, and the same after the owner allowed A and
    bound feeds for A and the base asset. *)
Definition emptyEnv : Env := mkEnv ∅ ∅ (prices 1 8) (λ _, 6).

Definition deployed : State :=
  mkState OWNER VAULT ROUTER USDT WETH [] {[USDT]} ∅ emptyEnv [].

Definition prepared : State :=
  mkState OWNER VAULT ROUTER USDT WETH [] {[A; USDT]}
          {[ A := feedOf A; USDT := feedOf USDT ]} emptyEnv [].

(** The prepared strategy in a world where the base asset and A are token
    contracts of which it holds nothing. *)
Definition unfunded : State :=
  mkState OWNER VAULT ROUTER USDT WETH [] {[A; USDT]}
          {[ A := feedOf A; USDT := feedOf USDT ]}
          (mkEnv {[USDT := 0; A := 0]} ∅ (prices 1 8) (λ _, 6)) [].

(** Valid tokens, weights 2^256 - 1 and 1: their sum does not fit in 256
    bits. *)
Definition overflowing_list : list TokenAllocation :=
  [mkAllocation A MAX_UINT256; mkAllocation B 1].

(** A listed twice (3000 + 3000 bps), 100 of A and 10 of base asset held. *)
Definition doubled : State :=
  world [mkAllocation A 3000; mkAllocation A 3000]
        {[USDT := 10; A := 100]} 1 8.

(** A SimpleStrategy holding 100 of the base asset and 7 of A. *)
Definition simple : Simple.SState :=
  Simple.mkSState 70 OWNER VAULT USDT {[USDT := 100; A := 7]}.

(** A vault that is neither entered nor paused, where OWNER has 10 shares. *)
Definition vaultState : Vault.VState unit :=
  Vault.mkVState false false {[OWNER := 10]} ∅ tt.

End Ex.
(** * Proofs *)

(** ** The result monad and checked arithmetic *)

(** Membership of a revert reason in an explicit list of reasons. *)
Ltac reason_listed :=
  repeat first [apply list_elem_of_here | apply list_elem_of_further].

Lemma bind_Ok {A B} (m : result A) (k : A → result B) (b : B) :
  m ≫= k = Ok b ↔ ∃ a, m = Ok a ∧ k a = Ok b.
Proof.
  destruct m as [a|e]; simpl; split.
  - eauto.
  - intros (a' & [= <-] & H). exact H.
  - discriminate.
  - intros (a' & [=] & _).
Qed.

Lemma bind_Revert_l {A B} (m : result A) (k : A → result B) (e : error) :
  m = Revert e → m ≫= k = Revert e.
Proof. intros ->. reflexivity. Qed.

Lemma require_true (P : Prop) `{Decision P} msg : P → require P msg = Ok tt.
Proof. intros HP. unfold require. destruct (decide P); [reflexivity | contradiction]. Qed.

Lemma require_false (P : Prop) `{Decision P} msg :
  ¬ P → require P msg = Revert (RequireFailed msg).
Proof. intros HP. unfold require. destruct (decide P); [contradiction | reflexivity]. Qed.

Lemma checked_add_ok a b : a + b ≤ MAX_UINT256 → checked_add a b = Ok (a + b).
Proof. intros H. unfold checked_add. destruct (decide _); [reflexivity | contradiction]. Qed.

Lemma checked_sub_ok a b : b ≤ a → checked_sub a b = Ok (a - b).
Proof. intros H. unfold checked_sub. destruct (decide _); [reflexivity | contradiction]. Qed.

Lemma checked_mul_ok a b : a * b ≤ MAX_UINT256 → checked_mul a b = Ok (a * b).
Proof. intros H. unfold checked_mul. destruct (decide _); [reflexivity | contradiction]. Qed.

Lemma checked_div_ok a b : b ≠ 0 → checked_div a b = Ok (a / b).
Proof. intros H. unfold checked_div. destruct (decide _); [contradiction | reflexivity]. Qed.

Lemma checked_pow_ok b e : b ^ e ≤ MAX_UINT256 → checked_pow b e = Ok (b ^ e).
Proof. intros H. unfold checked_pow. destruct (decide _); [reflexivity | contradiction]. Qed.

(** ** Valuation: the closed form of both conversions *)

Lemma pow10_pos e : 0 ≤ e → 1 ≤ 10 ^ e.
Proof. intros He. pose proof (Z.pow_pos_nonneg 10 e). lia. Qed.

(** The arithmetic tail shared by both conversions: multiply by the scaling
    power when the exponent is non-negative, divide by it otherwise. *)
Lemma scale_closed_form amount pNum pDen exp :
  1 ≤ amount → 0 < pNum → 0 < pDen →
  amount * (pNum * 10 ^ Z.max 0 exp) ≤ MAX_UINT256 →
  pDen * 10 ^ Z.max 0 (- exp) ≤ MAX_UINT256 →
  (if decide (0 ≤ exp) then
     x ← checked_mul amount pNum;
     p ← checked_pow 10 exp;
     y ← checked_mul x p;
     checked_div y pDen
   else
     x ← checked_mul amount pNum;
     p ← checked_pow 10 (- exp);
     d ← checked_mul pDen p;
     checked_div x d)
  = Ok (amount * (pNum * 10 ^ Z.max 0 exp) / (pDen * 10 ^ Z.max 0 (- exp))).
Proof.
  intros Ha Hn Hd Hnum Hden.
  assert (Hmono : ∀ x p, 0 ≤ x → 1 ≤ p → x ≤ x * p) by (intros; nia).
  destruct (decide (0 ≤ exp)) as [He|He].
  - rewrite Z.max_r in * by lia. rewrite (Z.max_l 0 (- exp)) in * by lia.
    pose proof (pow10_pos exp He) as Hp.
    assert (1 ≤ amount * pNum) by nia.
    pose proof (Hmono (amount * pNum) (10 ^ exp) ltac:(lia) Hp).
    pose proof (Hmono (10 ^ exp) (amount * pNum) ltac:(lia) ltac:(lia)).
    rewrite checked_mul_ok by lia. simpl.
    rewrite checked_pow_ok by lia. simpl.
    rewrite checked_mul_ok by lia. simpl.
    rewrite checked_div_ok by lia.
    f_equal. f_equal; lia.
  - rewrite Z.max_l in * by lia. rewrite (Z.max_r 0 (- exp)) in * by lia.
    pose proof (pow10_pos (- exp) ltac:(lia)) as Hp.
    pose proof (Hmono (10 ^ (- exp)) pDen ltac:(lia) ltac:(lia)).
    rewrite checked_mul_ok by lia. simpl.
    rewrite checked_pow_ok by lia. simpl.
    rewrite checked_mul_ok by lia. simpl.
    rewrite checked_div_ok by nia.
    f_equal. f_equal; lia.
Qed.

Lemma getTokenValue_closed_form s tok tf af amount :
  bound_feeds s tok tf af → 0 < answer tf → 0 < answer af →
  feedDecimals tf = feedDecimals af →
  1 ≤ amount →
  amount * conv_num s (answer tf) tok ≤ MAX_UINT256 →
  conv_den s (answer af) tok ≤ MAX_UINT256 →
  _getTokenValueInAsset s tok amount
  = Ok (amount * conv_num s (answer tf) tok / conv_den s (answer af) tok).
Proof.
  intros (Hne & Htf & Haf & Hft & Hfa) Hpt Hpa Hdec Hamt Hnum Hden.
  unfold _getTokenValueInAsset, callFeed.
  rewrite decide_False by done. rewrite decide_False by lia.
  rewrite require_true by done. simpl.
  rewrite require_true by done. simpl.
  rewrite Hft, Hfa. simpl.
  rewrite require_true by done. simpl.
  rewrite require_true by done. simpl.
  unfold conv_num, conv_den in *.
  replace (decimals (env s) tok - decimals (env s) (asset s))
    with (- (decimals (env s) (asset s) - decimals (env s) tok)) in * by lia.
  apply scale_closed_form; done.
Qed.

Lemma convertAssetValue_closed_form s tok tf af value :
  bound_feeds s tok tf af → 0 < answer tf → 0 < answer af →
  feedDecimals tf = feedDecimals af →
  1 ≤ value →
  value * conv_den s (answer af) tok ≤ MAX_UINT256 →
  conv_num s (answer tf) tok ≤ MAX_UINT256 →
  _convertAssetValueToTokenAmount s tok value
  = Ok (value * conv_den s (answer af) tok / conv_num s (answer tf) tok).
Proof.
  intros (Hne & Htf & Haf & Hft & Hfa) Hpt Hpa Hdec Hamt Hnum Hden.
  unfold _convertAssetValueToTokenAmount, callFeed.
  rewrite decide_False by done. rewrite decide_False by lia.
  rewrite require_true by done. simpl.
  rewrite require_true by done. simpl.
  rewrite Hft, Hfa. simpl.
  rewrite require_true by done. simpl.
  rewrite require_true by done. simpl.
  unfold conv_num, conv_den in *.
  replace (decimals (env s) (asset s) - decimals (env s) tok)
    with (- (decimals (env s) tok - decimals (env s) (asset s))) in * by lia.
  apply scale_closed_form; done.
Qed.

Lemma conv_num_pos s p tok : 0 < p → 0 < conv_num s p tok.
Proof.
  intros Hp. unfold conv_num.
  pose proof (pow10_pos (Z.max 0 (decimals (env s) (asset s) - decimals (env s) tok))
                ltac:(lia)). nia.
Qed.

Lemma conv_den_pos s p tok : 0 < p → 0 < conv_den s p tok.
Proof.
  intros Hp. unfold conv_den.
  pose proof (pow10_pos (Z.max 0 (decimals (env s) tok - decimals (env s) (asset s)))
                ltac:(lia)). nia.
Qed.

(** Floor, then floor back: never above the start, and below it by less than
    one token unit's worth plus one. *)
Lemma floor_roundtrip v N D :
  0 ≤ v → 0 < N → 0 < D →
  let a := v * D / N in
  let r := a * N / D in
  0 ≤ a ∧ a * N ≤ v * D ∧ 0 ≤ r ∧ r ≤ v ∧ (v - r) * D < N + D.
Proof.
  intros Hv HN HD a r.
  pose proof (Z.mul_div_le (v * D) N HN) as H1.
  pose proof (Z.mul_succ_div_gt (v * D) N HN) as H2.
  fold a in H1, H2.
  assert (0 ≤ a) as Ha by (apply Z.div_pos; nia).
  pose proof (Z.mul_div_le (a * N) D HD) as H3.
  pose proof (Z.mul_succ_div_gt (a * N) D HD) as H4.
  fold r in H3, H4.
  assert (0 ≤ r) as Hr by (apply Z.div_pos; nia).
  repeat split; try lia; nia.
Qed.

Lemma valuation_failure_mismatch s tok tf af amount :
  bound_feeds s tok tf af → feedDecimals tf ≠ feedDecimals af → amount ≠ 0 →
  (∃ e, _getTokenValueInAsset s tok amount = Revert e ∧ OracleError e) ∧
  (∃ e, _convertAssetValueToTokenAmount s tok amount = Revert e ∧ OracleError e).
Proof.
  intros (Hne & Htf & Haf & Hft & Hfa) Hdec Hamt.
  unfold _getTokenValueInAsset, _convertAssetValueToTokenAmount, callFeed.
  rewrite !decide_False by done.
  rewrite !(require_true (priceFeed s tok ≠ 0)) by done. simpl.
  rewrite !(require_true (priceFeed s (asset s) ≠ 0)) by done. simpl.
  rewrite Hft, Hfa. simpl.
  destruct (decide (0 < answer tf ∧ 0 < answer af)) as [Hpos|Hpos].
  - rewrite !(require_true (0 < answer tf ∧ 0 < answer af)) by done. simpl.
    rewrite !(require_false (feedDecimals tf = feedDecimals af)) by done. simpl.
    split; eexists; (split; [reflexivity|]); eexists; (split; [reflexivity|]);
      reason_listed.
  - rewrite !(require_false (0 < answer tf ∧ 0 < answer af)) by done. simpl.
    split; eexists; (split; [reflexivity|]); eexists; (split; [reflexivity|]);
      reason_listed.
Qed.

(** ** C2: round trip of the two conversions *)

(** C2, counterexample.  With matching feed precision and A priced at 10
    base units, the value 9 converts to 0 tokens and back to 0: the round
    trip is off by 9, not by one unit.  And with mismatched feed precision
    a zero amount converts to 0 in both directions instead of failing. *)
Lemma valueOf_amountOf_not_within_one_unit :
  (bound_feeds (Ex.world [] ∅ 10 8) Ex.A (mkFeed 10 8) (mkFeed 1 8) ∧
   _convertAssetValueToTokenAmount (Ex.world [] ∅ 10 8) Ex.A 9 = Ok 0 ∧
   _getTokenValueInAsset (Ex.world [] ∅ 10 8) Ex.A 0 = Ok 0 ∧
   ¬ (9 - 0 ≤ 1)) ∧
  (bound_feeds (Ex.world [] ∅ 1 18) Ex.A (mkFeed 1 18) (mkFeed 1 8) ∧
   feedDecimals (mkFeed 1 18) ≠ feedDecimals (mkFeed 1 8) ∧
   _getTokenValueInAsset (Ex.world [] ∅ 1 18) Ex.A 0 = Ok 0 ∧
   _convertAssetValueToTokenAmount (Ex.world [] ∅ 1 18) Ex.A 0 = Ok 0).
Proof.
  repeat split; try (vm_compute; congruence); try reflexivity.
Qed.

(** C2, as amended.  The base asset converts to itself exactly.  For a
    non-base token whose two Price Source Bindings are set: (1) with equal
    feed precision, positive prices and a value [v] whose conversion fits in
    256 bits, amountOf succeeds, valueOf of its result succeeds, and the
    round trip [r] never exceeds [v] and falls short of it by less than the
    worth of one token unit plus one base unit ((v - r) * den < num + den),
    hence by at most one unit whenever one token unit is worth at most one
    base unit; (2) with different feed precision every conversion of a
    nonzero amount fails with OracleError. *)
Theorem valueOf_amountOf_roundtrip (s : State) (tok : address) (tf af : Feed) :
  (∀ v, _convertAssetValueToTokenAmount s (asset s) v = Ok v ∧
        _getTokenValueInAsset s (asset s) v = Ok v) ∧
  (bound_feeds s tok tf af →
   (∀ v, feedDecimals tf = feedDecimals af →
         0 < answer tf → 0 < answer af → 0 ≤ v →
         v * conv_den s (answer af) tok ≤ MAX_UINT256 →
         conv_num s (answer tf) tok ≤ MAX_UINT256 →
         ∃ a r, _convertAssetValueToTokenAmount s tok v = Ok a ∧
                _getTokenValueInAsset s tok a = Ok r ∧
                r ≤ v ∧
                (v - r) * conv_den s (answer af) tok
                  < conv_num s (answer tf) tok + conv_den s (answer af) tok ∧
                (conv_num s (answer tf) tok ≤ conv_den s (answer af) tok →
                 v - r ≤ 1)) ∧
   (∀ amount, feedDecimals tf ≠ feedDecimals af → amount ≠ 0 →
         (∃ e, _getTokenValueInAsset s tok amount = Revert e ∧ OracleError e) ∧
         (∃ e, _convertAssetValueToTokenAmount s tok amount = Revert e ∧
               OracleError e))).
Proof.
  split.
  { intros v. unfold _convertAssetValueToTokenAmount, _getTokenValueInAsset.
    by rewrite !decide_True. }
  intros Hb. split; [|intros; by apply (valuation_failure_mismatch s tok tf af)].
  intros v Hdec Hpt Hpa Hv Hden Hnum.
  pose proof (conv_num_pos s _ tok Hpt) as HN.
  pose proof (conv_den_pos s _ tok Hpa) as HD.
  set (N := conv_num s (answer tf) tok) in *.
  set (D := conv_den s (answer af) tok) in *.
  destruct (floor_roundtrip v N D Hv HN HD) as (Ha & HaN & Hr & Hle & Hgap).
  exists (v * D / N), (v * D / N * N / D).
  assert (Hconv : _convertAssetValueToTokenAmount s tok v = Ok (v * D / N)).
  { destruct (decide (v = 0)) as [->|Hv0].
    - unfold _convertAssetValueToTokenAmount.
      rewrite decide_False by apply Hb. rewrite decide_True by done.
      rewrite Z.mul_0_l, Z.div_0_l by lia. reflexivity.
    - apply convertAssetValue_closed_form; auto; lia. }
  assert (Hval : _getTokenValueInAsset s tok (v * D / N) = Ok (v * D / N * N / D)).
  { destruct (decide (v * D / N = 0)) as [Ha0|Ha0].
    - rewrite Ha0. unfold _getTokenValueInAsset.
      rewrite decide_False by apply Hb. rewrite decide_True by done.
      rewrite Z.mul_0_l, Z.div_0_l by lia. reflexivity.
    - apply getTokenValue_closed_form; auto; try lia.
      assert (1 ≤ v) by (destruct (decide (v = 0)) as [->|]; [|lia];
                          rewrite Z.mul_0_l, Z.div_0_l in Ha0; lia).
      nia. }
  repeat split; auto. intros HND. nia.
Qed.

(** C2, witness: A priced at 2 base units, value 9. *)
Lemma valueOf_amountOf_roundtrip_witness :
  ∃ a r, _convertAssetValueToTokenAmount (Ex.world [] ∅ 2 8) Ex.A 9 = Ok a ∧
         _getTokenValueInAsset (Ex.world [] ∅ 2 8) Ex.A a = Ok r ∧
         r ≤ 9.
Proof.
  destruct (valueOf_amountOf_roundtrip (Ex.world [] ∅ 2 8) Ex.A
              (mkFeed 2 8) (mkFeed 1 8)) as [_ Hb].
  destruct Hb as [H _].
  { repeat split; vm_compute; congruence. }
  destruct (H 9) as (a & r & Ha & Hr & Hle & _).
  - reflexivity.
  - vm_compute. reflexivity.
  - vm_compute. reflexivity.
  - lia.
  - vm_compute. congruence.
  - vm_compute. congruence.
  - exists a, r. auto.
Defined.

(** ** C1: totalAssets *)

Lemma checked_div_nonneg a b q :
  checked_div a b = Ok q → 0 ≤ a → 0 < b → 0 ≤ q.
Proof.
  unfold checked_div. case_decide; [discriminate|].
  intros [= <-] Ha Hb. by apply Z.div_pos.
Qed.

Lemma checked_mul_inv a b c : checked_mul a b = Ok c → c = a * b.
Proof. unfold checked_mul. case_decide; congruence. Qed.

Lemma checked_pow_inv b e c : checked_pow b e = Ok c → c = b ^ e.
Proof. unfold checked_pow. case_decide; congruence. Qed.

Lemma require_inv (P : Prop) `{Decision P} msg u : require P msg = Ok u → P.
Proof. unfold require. case_decide; [done | discriminate]. Qed.

Lemma getTokenValue_nonneg s tok amount v :
  _getTokenValueInAsset s tok amount = Ok v → 0 ≤ amount → 0 ≤ v.
Proof.
  unfold _getTokenValueInAsset. intros H Ha.
  case_decide; [congruence|]. case_decide; [injection H; lia|].
  apply bind_Ok in H as (_ & _ & H). apply bind_Ok in H as (_ & _ & H).
  apply bind_Ok in H as (tf & _ & H). apply bind_Ok in H as (af & _ & H).
  apply bind_Ok in H as (_ & Hp%require_inv & H).
  apply bind_Ok in H as (_ & _ & H).
  destruct Hp as [Hpt Hpa].
  case_decide.
  - apply bind_Ok in H as (x & ->%checked_mul_inv & H).
    apply bind_Ok in H as (p & ->%checked_pow_inv & H).
    apply bind_Ok in H as (y & ->%checked_mul_inv & H).
    apply (checked_div_nonneg _ _ _ H); [|lia].
    pose proof (pow10_pos _ ltac:(eassumption)). nia.
  - apply bind_Ok in H as (x & ->%checked_mul_inv & H).
    apply bind_Ok in H as (p & ->%checked_pow_inv & H).
    apply bind_Ok in H as (d & ->%checked_mul_inv & H).
    apply (checked_div_nonneg _ _ _ H); [nia|].
    pose proof (pow10_pos (- (decimals (env s) (asset s) - decimals (env s) tok))
                  ltac:(lia)). nia.
Qed.

Lemma holdingValue_nonneg s t : 0 ≤ balance s t → 0 ≤ holdingValue s t.
Proof.
  intros Hb. unfold holdingValue.
  destruct (_getTokenValueInAsset s t (balance s t)) eqn:E; [|lia].
  by eapply getTokenValue_nonneg.
Qed.

Lemma sumZ_nonneg l : Forall (λ x, 0 ≤ x) l → 0 ≤ sumZ l.
Proof. induction 1; simpl; lia. Qed.

Lemma sumZ_perm l k : l ≡ₚ k → sumZ l = sumZ k.
Proof. induction 1; simpl; lia. Qed.

(** The values totalAssets adds up: one per listed entry that is a non-base
    Holding. *)
Lemma listed_values_nonneg s (ts : list address) :
  Forall (λ x, 0 ≤ x) (holdingValue s <$> filter (is_other_holding s) ts).
Proof.
  apply Forall_fmap, Forall_forall. intros t [[_ Hb] _]%list_elem_of_filter.
  apply holdingValue_nonneg. lia.
Qed.

Lemma totalAssets_loop_closed_form s allocs acc :
  (∀ t, t ∈ token <$> allocs → is_other_holding s t →
        ∃ v, _getTokenValueInAsset s t (balance s t) = Ok v) →
  acc + sumZ (holdingValue s <$> filter (is_other_holding s) (token <$> allocs))
    ≤ MAX_UINT256 →
  totalAssets_loop s allocs acc
  = Ok (acc + sumZ (holdingValue s <$>
                      filter (is_other_holding s) (token <$> allocs))).
Proof.
  revert acc. induction allocs as [|a rest IH]; intros acc Hval Hmax.
  - simpl. f_equal. lia.
  - cbn [totalAssets_loop]. rewrite fmap_cons in Hmax |- *.
    assert (Hrest : ∀ t, t ∈ token <$> rest → is_other_holding s t →
                         ∃ v, _getTokenValueInAsset s t (balance s t) = Ok v).
    { intros t Ht. apply Hval. rewrite fmap_cons. by apply list_elem_of_further. }
    pose proof (sumZ_nonneg _ (listed_values_nonneg s (token <$> rest))) as Hnn.
    destruct (decide (is_other_holding s (token a))) as [Hh|Hh].
    + rewrite filter_cons_True in Hmax |- * by done.
      rewrite fmap_cons in Hmax |- *. cbn [sumZ foldr] in Hmax |- *.
      fold (sumZ (holdingValue s <$> filter (is_other_holding s) (token <$> rest)))
        in Hmax |- *.
      destruct Hh as [Hne Hpos].
      rewrite decide_True by done. rewrite decide_True by done.
      destruct (Hval (token a)) as [v Hv];
        [rewrite fmap_cons; apply list_elem_of_here | by split |].
      assert (Hhv : holdingValue s (token a) = v)
        by (unfold holdingValue; by rewrite Hv).
      rewrite Hhv in Hmax |- *. rewrite Hv. simpl.
      rewrite checked_add_ok by lia. simpl.
      rewrite IH by (auto; lia). f_equal. lia.
    + rewrite filter_cons_False in Hmax |- * by done.
      unfold is_other_holding in Hh.
      destruct (decide (token a ≠ asset s)); [|by apply IH].
      destruct (decide (0 < balance s (token a))); [tauto | by apply IH].
Qed.

Lemma listed_holdings_perm s :
  NoDup (token <$> allocations s) →
  (∀ t, is_other_holding s t → t ∈ token <$> allocations s) →
  filter (is_other_holding s) (token <$> allocations s) ≡ₚ otherHoldings s.
Proof.
  intros Hnd Hall. unfold otherHoldings.
  apply NoDup_Permutation.
  - by apply NoDup_filter.
  - apply NoDup_filter, NoDup_elements.
  - intros t. rewrite !list_elem_of_filter, elem_of_elements, elem_of_dom.
    split; intros [Hh Hin]; (split; [done|]); [|by apply Hall].
    destruct Hh as [_ Hpos]. unfold balance in Hpos.
    destruct (balanceOf (env s) !! t); [eauto | simpl in Hpos; lia].
Qed.

(** C1, counterexample.  The strategy holds 5 of A, worth 5, and 100 of the
    base asset, with an empty Target Portfolio: Total Value is 105 but
    totalAssets answers 100. *)
Lemma totalAssets_ignores_unlisted_holding :
  Ex.A ∈ otherHoldings Ex.stranded ∧
  _getTokenValueInAsset Ex.stranded Ex.A (balance Ex.stranded Ex.A) = Ok 5 ∧
  spec_totalValue Ex.stranded = 105 ∧
  totalAssets Ex.stranded = Ok 100 ∧
  totalAssets Ex.stranded ≠ Ok (spec_totalValue Ex.stranded).
Proof.
  repeat split; try (vm_compute; congruence).
  vm_compute. apply list_elem_of_here.
Qed.

Lemma getTokenValue_reads_live_state s1 s2 tok amount :
  asset s1 = asset s2 → priceFeeds s1 = priceFeeds s2 → env s1 = env s2 →
  _getTokenValueInAsset s1 tok amount = _getTokenValueInAsset s2 tok amount.
Proof.
  intros Ha Hp He. unfold _getTokenValueInAsset, priceFeed, callFeed.
  by rewrite Ha, Hp, He.
Qed.

Lemma totalAssets_reads_live_state s1 s2 :
  asset s1 = asset s2 → allocations s1 = allocations s2 →
  priceFeeds s1 = priceFeeds s2 → env s1 = env s2 →
  totalAssets s1 = totalAssets s2.
Proof.
  intros Ha Hl Hp He. unfold totalAssets, balance. rewrite Ha, Hl, He.
  clear Hl. generalize (default 0 (balanceOf (env s2) !! asset s2)).
  induction (allocations s2) as [|a rest IH]; intros acc; [done|].
  cbn [totalAssets_loop]. unfold balance. rewrite Ha, He.
  rewrite (getTokenValue_reads_live_state s1 s2) by done.
  destruct (decide (token a ≠ asset s2)); [|by apply IH].
  destruct (decide (0 < default 0 (balanceOf (env s2) !! token a)));
    [|by apply IH].
  destruct (_getTokenValueInAsset s2 _ _) as [v|e]; [|done]. simpl.
  destruct (checked_add acc v); [|done]. simpl. by apply IH.
Qed.

(** C1, as amended.  In a state where every non-base token the strategy
    holds is listed in the Target Portfolio, no token is listed twice, every
    valuation succeeds and the sum fits in 256 bits, totalAssets returns the
    base-asset Holding plus the valueOf value of every other Holding.  It is
    recomputed from the live state on every call: its answer is determined
    by the current allocations, balances, feed bindings and feed answers
    alone. *)
Theorem totalAssets_total_value (s : State) :
  NoDup (token <$> allocations s) →
  (∀ t, is_other_holding s t → t ∈ token <$> allocations s) →
  (∀ t, is_other_holding s t →
        ∃ v, _getTokenValueInAsset s t (balance s t) = Ok v) →
  spec_totalValue s ≤ MAX_UINT256 →
  totalAssets s = Ok (spec_totalValue s) ∧
  (∀ s', asset s' = asset s → allocations s' = allocations s →
         priceFeeds s' = priceFeeds s → env s' = env s →
         totalAssets s' = Ok (spec_totalValue s)).
Proof.
  intros Hnd Hall Hval Hmax.
  assert (H : totalAssets s = Ok (spec_totalValue s)).
  { unfold totalAssets, spec_totalValue in *.
    pose proof (listed_holdings_perm s Hnd Hall) as Hperm.
    rewrite <- (sumZ_perm _ _ (fmap_Permutation (holdingValue s) _ _ Hperm)) in *.
    apply totalAssets_loop_closed_form; auto. }
  split; [exact H|]. intros s' Ha Hl Hp He.
  by rewrite (totalAssets_reads_live_state s' s).
Qed.

Lemma balanced_holdings t :
  is_other_holding Ex.balanced t → t = Ex.A ∨ t = Ex.B.
Proof.
  intros [_ Hpos].
  destruct (decide (t = Ex.A)) as [|HA]; [by left|].
  destruct (decide (t = Ex.B)) as [|HB]; [by right|].
  destruct (decide (t = Ex.USDT)) as [->|HU]; [vm_compute in Hpos; discriminate|].
  exfalso. unfold balance, Ex.balanced, Ex.world, Ex.mkWorld in Hpos.
  simpl in Hpos.
  rewrite lookup_insert_ne, lookup_insert_ne, lookup_singleton_ne in Hpos by done.
  simpl in Hpos. lia.
Qed.

(** C1, witness: A and B listed once each and held, 595 + 405 at par. *)
Lemma totalAssets_total_value_witness :
  totalAssets Ex.balanced = Ok (spec_totalValue Ex.balanced) ∧
  spec_totalValue Ex.balanced = 1000.
Proof.
  split; [|vm_compute; reflexivity].
  destruct (totalAssets_total_value Ex.balanced) as [H _].
  - apply (bool_decide_unpack _). vm_compute. exact I.
  - intros t [-> | ->]%balanced_holdings; apply (bool_decide_unpack _);
      vm_compute; exact I.
  - intros t [-> | ->]%balanced_holdings; eexists; vm_compute; reflexivity.
  - vm_compute. congruence.
  - exact H.
Defined.

(** ** C3: setAllocations rejects invalid lists atomically *)

Lemma transact_revert f s e : f s = Revert e → transact f s = s.
Proof. unfold transact. by intros ->. Qed.

Lemma ValidationError_intro msg :
  msg ∈ ["AIBasketStrategy: too many allocations";
         "AIBasketStrategy: zero token";
         "AIBasketStrategy: token not allowed";
         "AIBasketStrategy: zero percentage";
         "AIBasketStrategy: no price feed";
         "AIBasketStrategy: total percentage exceeds 100%"] →
  ValidationError (RequireFailed msg).
Proof. intros H. by exists msg. Qed.

Lemma sum_weights_nonneg l :
  Forall (λ a, 0 ≤ percentage a) l → 0 ≤ sum_weights l.
Proof.
  unfold sum_weights, sumZ. induction 1 as [|a l Ha _ IH]; [simpl; lia|].
  rewrite fmap_cons. cbn [foldr]. lia.
Qed.

(** What the validation loop does on any list: it stops at the first invalid
    entry with that entry's message, panics if the running sum overflows,
    and otherwise appends the whole list and returns the sum. *)
Lemma setAllocations_loop_spec l : ∀ s acc,
  Forall (λ a, 0 ≤ percentage a) l →
  match setAllocations_loop l s acc with
  | Ok (s', total) =>
      Forall (λ a, ¬ invalid_allocation s a) l ∧
      total = acc + sum_weights l ∧
      s' = set_allocations (allocations s ++ l) s
  | Revert e =>
      (Exists (invalid_allocation s) l ∧ ValidationError e) ∨
      (e = Panic 17 ∧ MAX_UINT256 < acc + sum_weights l)
  end.
Proof.
  induction l as [|a rest IH]; intros s acc Hw.
  - simpl. repeat split; [constructor | unfold sum_weights, sumZ; simpl; lia |].
    rewrite app_nil_r. by destruct s.
  - apply Forall_cons in Hw as [Ha Hrest].
    pose proof (sum_weights_nonneg rest Hrest) as Hnn.
    cbn [setAllocations_loop].
    assert (Hinv : ∀ P msg,
      (P → invalid_allocation s a) →
      msg ∈ ["AIBasketStrategy: too many allocations";
             "AIBasketStrategy: zero token";
             "AIBasketStrategy: token not allowed";
             "AIBasketStrategy: zero percentage";
             "AIBasketStrategy: no price feed";
             "AIBasketStrategy: total percentage exceeds 100%"] →
      P →
      (Exists (invalid_allocation s) (a :: rest) ∧
       ValidationError (RequireFailed msg)) ∨
      (RequireFailed msg = Panic 17 ∧
       MAX_UINT256 < acc + sum_weights (a :: rest))).
    { intros P msg HP Hmsg Hp. left. split;
        [apply Exists_cons_hd; auto | by apply ValidationError_intro]. }
    unfold require.
    destruct (decide (token a ≠ 0)) as [H1|H1]; simpl;
      [|apply (Hinv (token a = 0)); [by left | reason_listed | ];
        by destruct (decide (token a = 0))].
    destruct (decide (token a ∈ allowedTokens s)) as [H2|H2]; simpl;
      [|by apply (Hinv (token a ∉ allowedTokens s));
          [right; left | reason_listed | ]].
    destruct (decide (0 < percentage a)) as [H3|H3]; simpl;
      [|apply (Hinv (percentage a = 0)); [right; right; by left | reason_listed | lia]].
    destruct (decide (priceFeed s (token a) ≠ 0)) as [H4|H4]; simpl;
      [|apply (Hinv (priceFeed s (token a) = 0));
          [right; right; by right | reason_listed | ];
        by destruct (decide (priceFeed s (token a) = 0))].
    assert (Hsum : sum_weights (a :: rest) = percentage a + sum_weights rest)
      by reflexivity.
    unfold checked_add.
    destruct (decide (acc + percentage a ≤ MAX_UINT256)) as [Hfit|Hfit]; simpl;
      [|right; split; [done | lia]].
    specialize (IH (set_allocations (allocations s ++ [a]) s)
                   (acc + percentage a) Hrest).
    destruct (setAllocations_loop rest _ _) as [[s' total]|e].
    + destruct IH as (Hall & -> & ->). repeat split.
      * apply Forall_cons. split; [|exact Hall].
        unfold invalid_allocation. intros [?|[?|[?|?]]]; try done; lia.
      * lia.
      * simpl. by rewrite <- app_assoc.
    + destruct IH as [[Hex Hve]|[-> Hov]].
      * left. split; [by apply Exists_cons_tl | done].
      * right. split; [done | lia].
Qed.

(** C3, counterexample.  A and B are allowed and bound to feeds, and the
    weights are 2^256 - 1 and 1: the list has to be rejected, its weights
    sum to more than 10000 bps, and setAllocations does revert, but with
    the arithmetic panic of the checked sum, which is none of the validation
    messages. *)
Lemma setAllocations_overflow_is_a_panic :
  invalid_list Ex.balanced Ex.overflowing_list ∧
  setAllocations Ex.parRouter Ex.OWNER Ex.overflowing_list Ex.balanced
  = Revert (Panic 17) ∧
  ¬ ValidationError (Panic 17).
Proof.
  split; [right; right; vm_compute; reflexivity|].
  split; [vm_compute; reflexivity|].
  intros (msg & Hmsg & _). discriminate.
Qed.

(** C3, as amended.  Called by the owner with a list of uint256 weights that
    is too long, or names the zero token, a token outside the Allowed Token
    Set, a zero weight or a token without a price feed, or whose weights sum
    to more than 10000: setAllocations reverts and the transaction leaves
    the state (the prior Target Portfolio included) untouched.  The revert
    is one of the validation messages, or the overflow panic of the checked
    sum when the weights do not fit in 256 bits together; it is a
    validation message whenever they do. *)
Theorem setAllocations_rejects_invalid (R : Router) (caller : address)
  (l : list TokenAllocation) (s : State) :
  caller = owner s →
  Forall (λ a, 0 ≤ percentage a) l →
  invalid_list s l →
  (∃ e, setAllocations R caller l s = Revert e ∧
        (ValidationError e ∨ e = Panic 17 ∧ MAX_UINT256 < sum_weights l) ∧
        (sum_weights l ≤ MAX_UINT256 → ValidationError e)) ∧
  transact (setAllocations R caller l) s = s ∧
  allocations (transact (setAllocations R caller l) s) = allocations s.
Proof.
  intros Hown Hw Hinv.
  assert (Hrev : ∃ e, setAllocations R caller l s = Revert e ∧
                      (ValidationError e ∨
                       e = Panic 17 ∧ MAX_UINT256 < sum_weights l)).
  { unfold setAllocations, onlyOwner. rewrite decide_True by done. simpl.
    destruct (decide (Z.of_nat (length l) ≤ MAX_ALLOCATIONS)) as [Hlen|Hlen].
    2:{ rewrite require_false by done. simpl.
        eexists. split; [reflexivity|]. left.
        apply ValidationError_intro. reason_listed. }
    rewrite require_true by done. simpl.
    pose proof (setAllocations_loop_spec l (set_allocations [] s) 0 Hw) as Hloop.
    destruct (setAllocations_loop l (set_allocations [] s) 0) as [[s1 total]|e]; simpl.
    - destruct Hloop as (Hall & -> & ->).
      destruct Hinv as [Hlong|[Hex|Hsum]]; [lia | | ].
      + exfalso. apply Exists_exists in Hex as (a & Hin & Ha).
        rewrite Forall_forall in Hall. by apply (Hall a Hin).
      + rewrite require_false by lia. simpl.
        eexists. split; [reflexivity|]. left.
        apply ValidationError_intro. reason_listed.
    - eexists. split; [reflexivity|].
      destruct Hloop as [[_ Hve]|[-> Hov]]; [by left | right; split; [done | lia]]. }
  destruct Hrev as (e & He & Hkind).
  split; [|by rewrite (transact_revert _ _ _ He)].
  exists e. split; [exact He|]. split; [exact Hkind|].
  intros Hfit. destruct Hkind as [Hve|[_ Hov]]; [exact Hve | lia].
Qed.

(** C3, witness: the spec's scenario, weights [5000, 6000]. *)
Lemma setAllocations_rejects_invalid_witness :
  (∃ e, setAllocations Ex.parRouter Ex.OWNER Ex.overweight_list Ex.balanced
        = Revert e ∧ ValidationError e) ∧
  allocations (transact (setAllocations Ex.parRouter Ex.OWNER Ex.overweight_list)
                        Ex.balanced)
  = allocations Ex.balanced.
Proof.
  destruct (setAllocations_rejects_invalid Ex.parRouter Ex.OWNER
              Ex.overweight_list Ex.balanced) as ((e & He & _ & Hve) & _ & Hsame).
  - reflexivity.
  - repeat constructor; vm_compute; congruence.
  - right. right. vm_compute. reflexivity.
  - split; [|exact Hsame]. exists e. split; [exact He|].
    apply Hve. vm_compute. congruence.
Defined.

(** ** The swap adapter: what one call does *)

Lemma last_amount (l : list Z) x :
  last l = Some x →
  checked_sub (Z.of_nat (length l)) 1 = Ok (Z.of_nat (length l) - 1) ∧
  array_get l (Z.of_nat (length l) - 1) = Ok x.
Proof.
  intros Hl. rewrite last_lookup in Hl.
  assert (length l ≠ 0%nat) by (intros H0; destruct l; [discriminate | done]).
  split; [apply checked_sub_ok; lia|].
  unfold array_get.
  replace (Z.to_nat (Z.of_nat (length l) - 1)) with (pred (length l)) by lia.
  by rewrite Hl.
Qed.

Lemma array_get_last (l : list Z) i x :
  checked_sub (Z.of_nat (length l)) 1 = Ok i → array_get l i = Ok x →
  last l = Some x.
Proof.
  unfold checked_sub, array_get. case_decide; [|discriminate].
  intros [= <-]. rewrite last_lookup.
  replace (Z.to_nat (Z.of_nat (length l) - 1)) with (pred (length l)) by lia.
  destruct (l !! pred (length l)); congruence.
Qed.

(** Every way [_swapToken] can return: untouched state, or one router call
    with the quoted minimum, executed or not. *)
Lemma swapToken_cases R from to amount s s' :
  _swapToken R from to amount s = Ok s' →
  (s' = s ∧ (from = to ∨ amount = 0 ∨
             getAmountsOut R (env s) amount (_buildPath s from to) = None ∧
             hasCode R = true)) ∨
  ∃ amounts expected,
    from ≠ to ∧ amount ≠ 0 ∧
    getAmountsOut R (env s) amount (_buildPath s from to) = Some amounts ∧
    last amounts = Some expected ∧
    let s1 := forceApprove from (router s) amount s in
    let call ok := mkRouterCall amount (spec_minOutput expected)
                                (_buildPath s from to) ok in
    match swapExactTokensForTokens R (env s1) amount (spec_minOutput expected)
                                   (_buildPath s from to) with
    | Some env' => s' = log_call (call true) (set_env env' s1)
    | None => s' = log_call (call false) (forceApprove from (router s) 0 s1)
    end.
Proof.
  unfold _swapToken. intros H.
  destruct (decide (from = to ∨ amount = 0)) as [Hskip|Hgo].
  { left. injection H as <-. split; [done | tauto]. }
  destruct (getAmountsOut R (env s) amount (_buildPath s from to))
    as [amounts|] eqn:Hq.
  2:{ destruct (hasCode R); [|discriminate].
      left. injection H as <-. auto. }
  right.
  apply bind_Ok in H as (i & Hi & H).
  apply bind_Ok in H as (expected & Hx & H).
  apply bind_Ok in H as (x & ->%checked_mul_inv & H).
  apply bind_Ok in H as (m & Hm & H).
  assert (m = spec_minOutput expected) as ->.
  { unfold checked_div in Hm. case_decide; [discriminate|].
    injection Hm as <-. reflexivity. }
  exists amounts, expected.
  repeat split; [tauto | tauto | by eapply array_get_last |].
  simpl. destruct (swapExactTokensForTokens R _ _ _ _); by injection H as <-.
Qed.

Lemma swapToken_runs R from to amount s amounts expected :
  from ≠ to → amount ≠ 0 →
  getAmountsOut R (env s) amount (_buildPath s from to) = Some amounts →
  last amounts = Some expected →
  expected * (MAX_BPS - MAX_SLIPPAGE) ≤ MAX_UINT256 →
  let s1 := forceApprove from (router s) amount s in
  let call ok := mkRouterCall amount (spec_minOutput expected)
                              (_buildPath s from to) ok in
  _swapToken R from to amount s =
  Ok match swapExactTokensForTokens R (env s1) amount (spec_minOutput expected)
                                    (_buildPath s from to) with
     | Some env' => log_call (call true) (set_env env' s1)
     | None => log_call (call false) (forceApprove from (router s) 0 s1)
     end.
Proof.
  intros Hne Hamt Hq Hlast Hfit. unfold _swapToken.
  rewrite decide_False by tauto. rewrite Hq.
  destruct (last_amount amounts expected Hlast) as [Hsub Hget].
  rewrite Hsub. simpl. rewrite Hget. simpl.
  rewrite checked_mul_ok by done. simpl.
  fold (spec_minOutput expected).
  by destruct (swapExactTokensForTokens R _ _ _ _).
Qed.

(** Handing a nonzero amount to the adapter for two different tokens
    reaches the exchange whenever the quote is usable. *)
Lemma swapToken_traded R from to amount expected s :
  from ≠ to → amount ≠ 0 → quoted R s from to amount expected →
  ∃ s', _swapToken R from to amount s = Ok s' ∧
        traded R from to amount expected s s'.
Proof.
  intros Hne Hamt (amounts & Hq & Hlast & Hfit).
  rewrite (swapToken_runs R from to amount s amounts expected) by done.
  eexists. split; [reflexivity|]. unfold traded.
  destruct (swapExactTokensForTokens R _ _ _ _); simpl.
  - by repeat split.
  - split; [by repeat split|]. split; [done|]. split; [done|].
    by rewrite lookup_insert_eq.
Qed.

(** ** C4: the rebalancer's per-allocation decision *)

Lemma swap_same_token R t amount s : _swapToken R t t amount s = Ok s.
Proof. unfold _swapToken. rewrite decide_True; [done | by left]. Qed.

Lemma getTokenValue_zero s tok : _getTokenValueInAsset s tok 0 = Ok 0.
Proof.
  unfold _getTokenValueInAsset.
  destruct (decide (tok = asset s)); [done|]. by rewrite decide_True.
Qed.

Lemma convert_base_asset s v : _convertAssetValueToTokenAmount s (asset s) v = Ok v.
Proof. unfold _convertAssetValueToTokenAmount. by rewrite decide_True. Qed.

Lemma cap_is_min bal amt :
  (if decide (bal < amt) then bal else amt) = Z.min amt bal.
Proof. case_decide; lia. Qed.

(** The loop body of _rebalancePortfolio computes the spec's step as long as
    its three checked operations stay within 256 bits. *)
Lemma rebalance_step_refines R tv a s :
  0 < tv → 0 ≤ balance s (token a) →
  tv * percentage a ≤ MAX_UINT256 →
  tv * percentage a / 10000 + tv / 100 ≤ MAX_UINT256 →
  (∀ cur, currentValueOf s (token a) = Ok cur → cur + tv / 100 ≤ MAX_UINT256) →
  rebalance_step R tv a s = spec_rebalance_step R tv a s.
Proof.
  intros Htv Hbal Hmul Htgt Hcur.
  unfold rebalance_step, spec_rebalance_step.
  rewrite checked_mul_ok by done. simpl.
  assert (Hcv : (if decide (token a = asset s) then Ok (balance s (asset s))
                 else if decide (0 < balance s (token a))
                      then _getTokenValueInAsset s (token a) (balance s (token a))
                      else Ok 0)
                = currentValueOf s (token a)).
  { unfold currentValueOf. destruct (decide (token a = asset s)); [done|].
    destruct (decide (0 < balance s (token a))); [done|].
    replace (balance s (token a)) with 0 by lia.
    by rewrite getTokenValue_zero. }
  rewrite Hcv. clear Hcv.
  destruct (currentValueOf s (token a)) as [cur|e] eqn:Ecur; [|reflexivity]. simpl.
  specialize (Hcur cur eq_refl).
  assert (0 ≤ tv / 100) as Hthr by (apply Z.div_pos; lia).
  rewrite (checked_add_ok cur) by done. simpl.
  unfold MAX_BPS.
  destruct (decide (cur + tv / 100 < tv * percentage a / 10000)) as [Hbuy|Hbuy].
  { rewrite checked_sub_ok by lia. reflexivity. }
  rewrite (checked_add_ok (tv * percentage a / 10000)) by done. simpl.
  destruct (decide (tv * percentage a / 10000 + tv / 100 < cur)) as [Hsell|Hsell].
  - rewrite decide_True by lia.
    rewrite checked_sub_ok by lia. simpl.
    destruct (decide (token a ≠ asset s)) as [Hne|Heq].
    + destruct (_convertAssetValueToTokenAmount s (token a) _) as [amt|e];
        [|reflexivity]. simpl. by rewrite cap_is_min.
    + assert (token a = asset s) as -> by (by destruct (decide (token a = asset s))).
      rewrite convert_base_asset. simpl. by rewrite swap_same_token.
  - by rewrite decide_False by lia.
Qed.

(** C4.  In a pass with Total Value [tv] > 0, take an allocation (token,
    weightBps) with targetValue = tv * weightBps / 10000 and threshold =
    tv / 100.  When currentValue + threshold < targetValue the step calls
    the exchange to swap exactly targetValue - currentValue of base asset
    along the route into the token.  When currentValue > targetValue +
    threshold it calls the exchange to sell amountOf(currentValue -
    targetValue) of the token, capped at the Holding, along the route into
    the base asset.  Otherwise, and for the base asset itself, it leaves
    the state as it is and calls nothing.  The exchange is called whenever
    it quotes the amount; the call is logged with its amount, minimum and
    route, and its outcome is the outcome of the step.  The body is the
    spec's step, and the pass runs it over the allocations in registry
    order with [tv] fixed.  The three checked operations are assumed to fit
    in 256 bits. *)
Theorem rebalance_step_decision (R : Router) (tv : Z) (a : TokenAllocation)
  (s : State) :
  0 < tv → 0 ≤ balance s (token a) →
  tv * percentage a ≤ MAX_UINT256 →
  tv * percentage a / 10000 + tv / 100 ≤ MAX_UINT256 →
  (∀ cur, currentValueOf s (token a) = Ok cur → cur + tv / 100 ≤ MAX_UINT256) →
  rebalance_step R tv a s = spec_rebalance_step R tv a s ∧
  (∀ cur, currentValueOf s (token a) = Ok cur →
     let targetValue := tv * percentage a / 10000 in
     let threshold := tv / 100 in
     (cur + threshold < targetValue → token a ≠ asset s →
        ∀ expected,
          quoted R s (asset s) (token a) (targetValue - cur) expected →
          ∃ s', rebalance_step R tv a s = Ok s' ∧
                traded R (asset s) (token a) (targetValue - cur) expected s s') ∧
     (cur > targetValue + threshold → token a ≠ asset s →
        ∀ amt,
          _convertAssetValueToTokenAmount s (token a) (cur - targetValue)
          = Ok amt →
          let sell := Z.min amt (balance s (token a)) in
          sell ≤ balance s (token a) ∧
          (sell = 0 → rebalance_step R tv a s = Ok s) ∧
          (sell ≠ 0 → ∀ expected,
             quoted R s (token a) (asset s) sell expected →
             ∃ s', rebalance_step R tv a s = Ok s' ∧
                   traded R (token a) (asset s) sell expected s s')) ∧
     (¬ cur + threshold < targetValue → ¬ cur > targetValue + threshold →
        rebalance_step R tv a s = Ok s) ∧
     (token a = asset s → rebalance_step R tv a s = Ok s)) ∧
  (∀ rest, rebalance_loop R tv (a :: rest) s
           = rebalance_step R tv a s ≫= rebalance_loop R tv rest) ∧
  (∀ s0, totalAssets s0 = Ok tv →
         _rebalancePortfolio R s0 = rebalance_loop R tv (allocations s0) s0).
Proof.
  intros Htv Hbal Hmul Htgt Hcur.
  pose proof (rebalance_step_refines R tv a s Htv Hbal Hmul Htgt Hcur) as Heq.
  split; [exact Heq|]. split; [|split; [reflexivity|]].
  2:{ intros s0 H0. unfold _rebalancePortfolio. rewrite H0. simpl.
      rewrite (decide_False (P := tv = 0)) by lia.
      destruct (decide (allocations s0 = [])) as [->|]; reflexivity. }
  intros cur Ecur targetValue threshold. rewrite Heq.
  unfold spec_rebalance_step. rewrite Ecur. simpl.
  fold targetValue threshold.
  assert (0 ≤ threshold) by (apply Z.div_pos; lia).
  split; [|split; [|split]].
  - intros Hlt Hne expected Hq. rewrite decide_True by done.
    apply swapToken_traded; [congruence | lia | exact Hq].
  - intros Hgt Hne amt Hamt. rewrite decide_False by lia.
    rewrite decide_True by done. rewrite Hamt. simpl.
    set (sell := Z.min amt (balance s (token a))).
    split; [lia|]. split.
    + intros ->. unfold _swapToken. rewrite decide_True; [done | by right].
    + intros Hsell expected Hq. by apply swapToken_traded.
  - intros H1 H2. by rewrite !decide_False.
  - intros Heqa. rewrite Heqa.
    destruct (decide (cur + threshold < targetValue)); [apply swap_same_token|].
    destruct (decide (cur > targetValue + threshold)); [|done].
    rewrite convert_base_asset. simpl. apply swap_same_token.
Qed.

(** C4, witness: the spec's scenario at B (target 400, worth 450): 50 of B
    are sold through the bridge token for at least 47, and the exchange
    executes the call. *)
Lemma rebalance_step_decision_witness :
  ∃ s', rebalance_step Ex.parRouter 1000 (mkAllocation Ex.B 4000) Ex.skewed
        = Ok s' ∧
        traded Ex.parRouter Ex.B Ex.USDT 50 50 Ex.skewed s' ∧
        swapCalls s' = [mkRouterCall 50 47 [Ex.B; Ex.WETH; Ex.USDT] true].
Proof.
  destruct (rebalance_step_decision Ex.parRouter 1000 (mkAllocation Ex.B 4000)
              Ex.skewed) as (_ & H & _).
  - lia.
  - vm_compute. congruence.
  - vm_compute. congruence.
  - vm_compute. congruence.
  - intros cur H. vm_compute in H. injection H as <-. vm_compute. congruence.
  - destruct (H 450) as (_ & Hsell & _); [vm_compute; reflexivity|].
    destruct (Hsell ltac:(vm_compute; reflexivity)
                    ltac:(vm_compute; discriminate) 50
                    ltac:(vm_compute; reflexivity)) as (_ & _ & Htrade).
    destruct (Htrade ltac:(vm_compute; discriminate) 50) as (s' & Hs' & Ht).
    + exists [50; 50; 50]. repeat split; vm_compute; congruence.
    + exists s'. split; [exact Hs'|]. split; [exact Ht|].
      destruct Ht as (_ & Ht). vm_compute in Ht. destruct Ht as [Hlog _].
      exact Hlog.
Defined.

(** ** C5: a valuation failure aborts the whole pass *)





(** ** C7: a pass without threshold breaches is a no-op *)

Lemma checked_add_inv a b c : checked_add a b = Ok c → c = a + b.
Proof. unfold checked_add. case_decide; congruence. Qed.

Lemma totalAssets_loop_ge s allocs acc tv :
  totalAssets_loop s allocs acc = Ok tv → acc ≤ tv.
Proof.
  revert acc. induction allocs as [|a rest IH]; intros acc H.
  - injection H as <-. lia.
  - cbn [totalAssets_loop] in H.
    destruct (decide (token a ≠ asset s)); [|by apply IH].
    destruct (decide (0 < balance s (token a))); [|by apply IH].
    apply bind_Ok in H as (v & Hv & H).
    apply bind_Ok in H as (acc' & ->%checked_add_inv & H).
    apply IH in H. apply getTokenValue_nonneg in Hv; lia.
Qed.

Lemma spec_rebalance_step_within R tv a s :
  within_threshold tv s a → spec_rebalance_step R tv a s = Ok s.
Proof.
  intros (cur & Hcur & Hlo & Hhi). unfold spec_rebalance_step.
  rewrite Hcur. simpl. by rewrite !decide_False.
Qed.

Lemma rebalance_loop_within R tv s allocs :
  0 < tv → tv * 10000 ≤ MAX_UINT256 →
  Forall (λ a, within_threshold tv s a ∧ 0 ≤ percentage a ≤ 10000 ∧
               0 ≤ balance s (token a)) allocs →
  rebalance_loop R tv allocs s = Ok s.
Proof.
  intros Htv Hmax. induction 1 as [|a rest (Hw & Hp & Hb) _ IH]; [done|].
  cbn [rebalance_loop].
  assert (tv * percentage a / 10000 ≤ tv) as Htgt
    by (apply Z.div_le_upper_bound; nia).
  assert (0 ≤ tv / 100 ≤ tv) as Hthr
    by (split; [apply Z.div_pos | apply Z.div_le_upper_bound]; lia).
  rewrite rebalance_step_refines; try done; try nia.
  - rewrite spec_rebalance_step_within by done. exact IH.
  - intros cur Hcur. destruct Hw as (cur' & Hcur' & _ & Hhi).
    rewrite Hcur in Hcur'. injection Hcur' as <-. simpl in Hhi. lia.
Qed.

(** C7.  If every allocation's current value is within the threshold of its
    target (Total Value below 2^256 / 10000, weights at most 10000 bps), a
    rebalance pass returns the state it started from: no swap is issued and
    no Holding changes; so a second pass right after the first returns that
    same state again. *)
Theorem rebalance_noop_within_threshold (R : Router) (s : State) (tv : Z) :
  totalAssets s = Ok tv →
  0 ≤ balance s (asset s) →
  tv * 10000 ≤ MAX_UINT256 →
  Forall (λ a, within_threshold tv s a ∧ 0 ≤ percentage a ≤ 10000 ∧
               0 ≤ balance s (token a)) (allocations s) →
  _rebalancePortfolio R s = Ok s ∧
  ∃ s1 s2, _rebalancePortfolio R s = Ok s1 ∧ _rebalancePortfolio R s1 = Ok s2 ∧
           swapCalls s2 = swapCalls s ∧
           balanceOf (env s1) = balanceOf (env s) ∧
           balanceOf (env s2) = balanceOf (env s1).
Proof.
  intros Htv Hbase Hmax Hall.
  assert (H : _rebalancePortfolio R s = Ok s).
  { unfold _rebalancePortfolio. destruct (decide (allocations s = [])); [done|].
    rewrite Htv. simpl. destruct (decide (tv = 0)); [done|].
    apply rebalance_loop_within; auto.
    apply totalAssets_loop_ge in Htv. lia. }
  split; [exact H|]. exists s, s. auto.
Qed.

(** C7, witness: the spec's scenario, A worth 595 and B worth 405 against
    targets 600 and 400 with threshold 10. *)
Lemma rebalance_noop_within_threshold_witness :
  _rebalancePortfolio Ex.parRouter Ex.balanced = Ok Ex.balanced.
Proof.
  destruct (rebalance_noop_within_threshold Ex.parRouter Ex.balanced 1000)
    as [H _].
  - vm_compute. reflexivity.
  - vm_compute. congruence.
  - vm_compute. congruence.
  - repeat constructor; try (vm_compute; congruence).
    + exists 595. split; [vm_compute; reflexivity|]. vm_compute. split; congruence.
    + exists 405. split; [vm_compute; reflexivity|]. vm_compute. split; congruence.
  - exact H.
Defined.

(** ** C6: proportional liquidation *)

Lemma liquidate_step_refines R n tv a s :
  token a ≠ asset s → 0 < balance s (token a) → 0 < tv →
  (∀ v, _getTokenValueInAsset s (token a) (balance s (token a)) = Ok v →
        v * n ≤ MAX_UINT256) →
  liquidate_step R n tv a s = spec_liquidate_step R n tv a s.
Proof.
  intros Hne Hbal Htv Hfit. unfold liquidate_step, spec_liquidate_step.
  rewrite decide_False by done. rewrite decide_False by lia.
  destruct (_getTokenValueInAsset s (token a) _) as [v|e]; [|reflexivity].
  simpl. rewrite checked_mul_ok by auto. simpl.
  rewrite checked_div_ok by lia. simpl. unfold spec_liquidateValue.
  destruct (decide (0 < v * n / tv)); [|reflexivity].
  destruct (_convertAssetValueToTokenAmount s (token a) _) as [amt|e];
    [|reflexivity].
  simpl. by rewrite cap_is_min.
Qed.

(** Two floors of the same ratio stay proportional up to rounding. *)
Lemma liquidateValue_proportional vA vB n tv :
  0 < vA → 0 < vB → 0 ≤ n → 0 < tv →
  - vB < spec_liquidateValue vA n tv * vB - spec_liquidateValue vB n tv * vA < vA.
Proof.
  intros HA HB Hn Htv. unfold spec_liquidateValue.
  pose proof (Z.mul_div_le (vA * n) tv Htv) as A1.
  pose proof (Z.mul_succ_div_gt (vA * n) tv Htv) as A2.
  pose proof (Z.mul_div_le (vB * n) tv Htv) as B1.
  pose proof (Z.mul_succ_div_gt (vB * n) tv Htv) as B2.
  set (lA := vA * n / tv) in *. set (lB := vB * n / tv) in *.
  assert (tv * (lA * vB - lB * vA) < tv * vA) by nia.
  assert (tv * (- vB) < tv * (lA * vB - lB * vA)) by nia.
  split; nia.
Qed.

(** C6, counterexample.  Only A is listed, and the strategy also holds 100
    of X worth 100.  liquidate(50) computes a liquidateValue of 50 for X in
    the spec's formula, yet the pass sells 50 of A only: X is never offered
    to the exchange and its Holding stays 100. *)
Lemma liquidate_skips_unlisted_holding :
  is_other_holding Ex.unlisted_X Ex.X ∧
  holdingValue Ex.unlisted_X Ex.X = 100 ∧
  totalAssets Ex.unlisted_X = Ok 100 ∧
  spec_liquidateValue (holdingValue Ex.unlisted_X Ex.X) 50 100 = 50 ∧
  ∃ s', _liquidateForWithdrawal Ex.parRouter 50 Ex.unlisted_X = Ok s' ∧
        swapCalls s' = [mkRouterCall 50 47 [Ex.A; Ex.WETH; Ex.USDT] true] ∧
        ¬ sold (swapCalls s') Ex.X ∧
        balance s' Ex.X = 100.
Proof.
  split; [split; vm_compute; congruence|].
  do 3 (split; [vm_compute; reflexivity|]).
  eexists. split; [vm_compute; reflexivity|].
  split; [reflexivity|]. split; [|vm_compute; reflexivity].
  unfold sold. cbn [swapCalls]. rewrite Exists_cons, Exists_nil. simpl.
  intros [[=]|[]].
Qed.

(** C6, as amended.  In a liquidation pass with Total Value [tv] > 0, take
    an entry of the Target Portfolio whose token is not the base asset and
    has a Holding worth holdingValue (holdings of tokens that are not listed
    are not visited).  With liquidateValue = holdingValue * needed / tv, the
    step calls the exchange to sell amountOf(liquidateValue) of the token,
    capped at the Holding, along the route into the base asset; when
    liquidateValue is 0 it leaves the state as it is.  The exchange is
    called whenever it quotes the amount; the call is logged with its
    amount, minimum and route, and its outcome is the outcome of the step.
    The liquidateValues of two holdings of positive value are in the ratio
    of those values up to rounding.  The product holdingValue * needed is
    assumed to fit in 256 bits. *)
Theorem liquidate_step_proportional (R : Router) (n tv : Z) (a : TokenAllocation)
  (s : State) :
  0 < tv → token a ≠ asset s → 0 < balance s (token a) →
  (∀ v, _getTokenValueInAsset s (token a) (balance s (token a)) = Ok v →
        v * n ≤ MAX_UINT256) →
  liquidate_step R n tv a s = spec_liquidate_step R n tv a s ∧
  (∀ v, _getTokenValueInAsset s (token a) (balance s (token a)) = Ok v →
     let liquidateValue := spec_liquidateValue v n tv in
     (¬ 0 < liquidateValue → liquidate_step R n tv a s = Ok s) ∧
     (0 < liquidateValue →
        ∀ amt,
          _convertAssetValueToTokenAmount s (token a) liquidateValue = Ok amt →
          let sell := Z.min amt (balance s (token a)) in
          sell ≤ balance s (token a) ∧
          (sell = 0 → liquidate_step R n tv a s = Ok s) ∧
          (sell ≠ 0 → ∀ expected,
             quoted R s (token a) (asset s) sell expected →
             ∃ s', liquidate_step R n tv a s = Ok s' ∧
                   traded R (token a) (asset s) sell expected s s'))) ∧
  (∀ rest, liquidate_loop R n tv (a :: rest) s
           = liquidate_step R n tv a s ≫= liquidate_loop R n tv rest) ∧
  (∀ s0, totalAssets s0 = Ok tv →
         _liquidateForWithdrawal R n s0
         = liquidate_loop R n tv (allocations s0) s0) ∧
  (∀ vA vB, 0 < vA → 0 < vB → 0 ≤ n →
     - vB < spec_liquidateValue vA n tv * vB - spec_liquidateValue vB n tv * vA
          < vA).
Proof.
  intros Htv Hne Hbal Hfit.
  pose proof (liquidate_step_refines R n tv a s Hne Hbal Htv Hfit) as Heq.
  split; [exact Heq|]. split; [|split; [reflexivity|split]].
  - intros v Hv liquidateValue. rewrite Heq.
    unfold spec_liquidate_step. rewrite Hv. simpl. fold liquidateValue.
    split.
    + intros Hzero. by rewrite decide_False.
    + intros Hpos amt Hamt. rewrite decide_True by done.
      rewrite Hamt. simpl.
      set (sell := Z.min amt (balance s (token a))).
      split; [lia|]. split.
      * intros ->. unfold _swapToken. rewrite decide_True; [done | by right].
      * intros Hsell expected Hq. by apply swapToken_traded.
  - intros s0 H0. unfold _liquidateForWithdrawal. rewrite H0. simpl.
    rewrite (decide_False (P := tv = 0)) by lia.
    destruct (decide (allocations s0 = [])) as [->|]; reflexivity.
  - intros vA vB HA HB Hn. by apply liquidateValue_proportional.
Qed.

(** C6, witness: liquidate(50) at A in the world above: A is worth 100 of a
    Total Value of 100, so 50 of A are sold through the bridge token for at
    least 47, and the exchange executes the call. *)
Lemma liquidate_step_proportional_witness :
  ∃ s', liquidate_step Ex.parRouter 50 100 (mkAllocation Ex.A 10000)
          Ex.unlisted_X = Ok s' ∧
        traded Ex.parRouter Ex.A Ex.USDT 50 50 Ex.unlisted_X s' ∧
        swapCalls s' = [mkRouterCall 50 47 [Ex.A; Ex.WETH; Ex.USDT] true].
Proof.
  destruct (liquidate_step_proportional Ex.parRouter 50 100
              (mkAllocation Ex.A 10000) Ex.unlisted_X) as (_ & H & _).
  - lia.
  - vm_compute. congruence.
  - vm_compute. reflexivity.
  - intros v H. vm_compute in H. injection H as <-. vm_compute. congruence.
  - destruct (H 100) as (_ & Hsell); [vm_compute; reflexivity|].
    destruct (Hsell ltac:(vm_compute; reflexivity) 50
                    ltac:(vm_compute; reflexivity)) as (_ & _ & Htrade).
    destruct (Htrade ltac:(vm_compute; discriminate) 50) as (s' & Hs' & Ht).
    + exists [50; 50; 50]. repeat split; vm_compute; congruence.
    + exists s'. split; [exact Hs'|]. split; [exact Ht|].
      destruct Ht as (_ & Ht). vm_compute in Ht. destruct Ht as [Hlog _].
      exact Hlog.
Defined.

(** ** C8 and C9: the swap adapter *)

(** C8.  Whenever [_swapToken] calls the exchange, the minimum output it
    passes is expectedOutput * (10000 - 500) / 10000, where expectedOutput
    is the last amount of the exchange's quote along the built route; and
    it does call the exchange, with that minimum, whenever the tokens
    differ, the amount is nonzero and the quote succeeds with a last amount
    whose product with 9500 fits in 256 bits. *)
Theorem swap_minimum_output (R : Router) (from to : address) (amount : Z)
  (s : State) :
  (∀ s', _swapToken R from to amount s = Ok s' →
     swapCalls s' = swapCalls s ∨
     ∃ amounts expected ok,
       getAmountsOut R (env s) amount (_buildPath s from to) = Some amounts ∧
       last amounts = Some expected ∧
       swapCalls s' = swapCalls s ++
         [mkRouterCall amount (expected * (10000 - 500) / 10000)
                       (_buildPath s from to) ok]) ∧
  (∀ amounts expected,
     from ≠ to → amount ≠ 0 →
     getAmountsOut R (env s) amount (_buildPath s from to) = Some amounts →
     last amounts = Some expected →
     expected * (MAX_BPS - MAX_SLIPPAGE) ≤ MAX_UINT256 →
     ∃ s' ok, _swapToken R from to amount s = Ok s' ∧
       swapCalls s' = swapCalls s ++
         [mkRouterCall amount (expected * (10000 - 500) / 10000)
                       (_buildPath s from to) ok]).
Proof.
  split.
  - intros s' [[-> _]|(amounts & expected & _ & _ & Hq & Hlast & Hs')]%swapToken_cases;
      [by left|].
    right. exists amounts, expected. simpl in Hs'.
    destruct (swapExactTokensForTokens R _ _ _ _); subst s';
      [exists true | exists false]; auto.
  - intros amounts expected Hne Hamt Hq Hlast Hfit.
    rewrite (swapToken_runs R from to amount s amounts expected) by done.
    destruct (swapExactTokensForTokens R _ _ _ _);
      eexists; [exists true | exists false]; split; reflexivity.
Qed.

(** C8, witness: selling 50 of B at par, minimum output 47. *)
Lemma swap_minimum_output_witness :
  ∃ s' ok, _swapToken Ex.parRouter Ex.B Ex.USDT 50 Ex.skewed = Ok s' ∧
    swapCalls s' = [mkRouterCall 50 47 [Ex.B; Ex.WETH; Ex.USDT] ok].
Proof.
  destruct (swap_minimum_output Ex.parRouter Ex.B Ex.USDT 50 Ex.skewed)
    as [_ H].
  destruct (H [50; 50; 50] 50) as (s' & ok & Hs' & Hcalls).
  - vm_compute. congruence.
  - lia.
  - reflexivity.
  - reflexivity.
  - vm_compute. congruence.
  - exists s', ok. split; [exact Hs' | exact Hcalls].
Defined.

(** C9.  If the quote succeeds but the exchange's execution call reverts,
    [_swapToken] still returns normally, the router's allowance on the
    from-token is 0 afterwards, no Holding, allocation or feed binding has
    changed, and the call is recorded as not executed. *)
Theorem swap_failure_resets_approval (R : Router) (from to : address)
  (amount : Z) (s : State) (amounts : list Z) (expected : Z) :
  from ≠ to → amount ≠ 0 →
  getAmountsOut R (env s) amount (_buildPath s from to) = Some amounts →
  last amounts = Some expected →
  expected * (MAX_BPS - MAX_SLIPPAGE) ≤ MAX_UINT256 →
  swapExactTokensForTokens R (env (forceApprove from (router s) amount s))
    amount (spec_minOutput expected) (_buildPath s from to) = None →
  ∃ s', _swapToken R from to amount s = Ok s' ∧
        allowance (env s') !! (from, router s) = Some 0 ∧
        balanceOf (env s') = balanceOf (env s) ∧
        allocations s' = allocations s ∧
        last (swapCalls s')
        = Some (mkRouterCall amount (spec_minOutput expected)
                             (_buildPath s from to) false).
Proof.
  intros Hne Hamt Hq Hlast Hfit Hfail.
  rewrite (swapToken_runs R from to amount s amounts expected) by done.
  rewrite Hfail. eexists. split; [reflexivity|]. simpl.
  repeat split.
  - by rewrite lookup_insert_eq.
  - by rewrite last_snoc.
Qed.

(** C9, witness: the quote succeeds and the execution reverts. *)
Lemma swap_failure_resets_approval_witness :
  ∃ s', _swapToken Ex.revertingRouter Ex.B Ex.USDT 50 Ex.skewed = Ok s' ∧
        allowance (env s') !! (Ex.B, router Ex.skewed) = Some 0 ∧
        balanceOf (env s') = balanceOf (env Ex.skewed).
Proof.
  destruct (swap_failure_resets_approval Ex.revertingRouter Ex.B Ex.USDT 50
              Ex.skewed [50; 50; 50] 50) as (s' & H1 & H2 & H3 & _).
  - vm_compute. congruence.
  - lia.
  - reflexivity.
  - reflexivity.
  - vm_compute. congruence.
  - reflexivity.
  - exists s'. repeat split; assumption.
Defined.

(** ** C10: the emergency exit always clears the Target Portfolio *)

Lemma swapToken_total R from to amount s :
  hasCode R = true → usable_quotes R →
  ∃ s', _swapToken R from to amount s = Ok s'.
Proof.
  intros Hcode HR.
  destruct (decide (from = to ∨ amount = 0)) as [Hskip|Hgo].
  { exists s. unfold _swapToken. by rewrite decide_True. }
  destruct (getAmountsOut R (env s) amount (_buildPath s from to))
    as [amounts|] eqn:Hq.
  - destruct (HR _ _ _ _ Hq) as (expected & Hlast & Hfit).
    rewrite (swapToken_runs R from to amount s amounts expected)
      by (done || tauto).
    eauto.
  - exists s. unfold _swapToken. rewrite decide_False by done.
    by rewrite Hq, Hcode.
Qed.

Lemma swapToken_no_quote R from to amount s :
  hasCode R = true → (∀ e x p, getAmountsOut R e x p = None) →
  _swapToken R from to amount s = Ok s.
Proof.
  intros Hcode Hdead. unfold _swapToken.
  destruct (decide (from = to ∨ amount = 0)); [done|]. by rewrite Hdead, Hcode.
Qed.

Lemma emergencyExit_loop_total R allocs : ∀ s,
  hasCode R = true → usable_quotes R →
  ∃ s', emergencyExit_loop R allocs s = Ok s'.
Proof.
  induction allocs as [|a rest IH]; intros s Hcode HR; [by exists s|].
  cbn [emergencyExit_loop].
  destruct (decide (token a = asset s)); [by apply IH|].
  destruct (decide (0 < balance s (token a))); [|by apply IH].
  destruct (swapToken_total R (token a) (asset s) (balance s (token a)) s
              Hcode HR) as [s1 ->].
  simpl. by apply IH.
Qed.

Lemma emergencyExit_loop_no_quote R allocs s :
  hasCode R = true → (∀ e x p, getAmountsOut R e x p = None) →
  emergencyExit_loop R allocs s = Ok s.
Proof.
  intros Hcode Hdead. induction allocs as [|a rest IH]; [done|].
  cbn [emergencyExit_loop].
  destruct (decide (token a = asset s)); [done|].
  destruct (decide (0 < balance s (token a))); [|done].
  by rewrite swapToken_no_quote.
Qed.

(** C10.  Whenever emergencyExitAllPositions returns, the Target Portfolio
    is empty.  Called by the owner while a contract is deployed at the
    router address and its quotes are usable, it does return, whichever exit
    swaps fail; and when that router reverts on every quote it returns the
    state it started from with only the allocations cleared, so every
    non-base Holding is still there. *)
Theorem emergencyExit_clears_allocations (R : Router) (caller : address)
  (s : State) :
  (∀ s', emergencyExitAllPositions R caller s = Ok s' → allocations s' = []) ∧
  (caller = owner s → hasCode R = true → usable_quotes R →
     ∃ s', emergencyExitAllPositions R caller s = Ok s' ∧ allocations s' = []) ∧
  (caller = owner s → hasCode R = true →
   (∀ e x p, getAmountsOut R e x p = None) →
     emergencyExitAllPositions R caller s = Ok (set_allocations [] s) ∧
     ∀ t, balance (set_allocations [] s) t = balance s t).
Proof.
  unfold emergencyExitAllPositions, onlyOwner. repeat split.
  - intros s' H. apply bind_Ok in H as (_ & _ & H).
    apply bind_Ok in H as (s1 & _ & H). by injection H as <-.
  - intros Hown Hcode HR. rewrite decide_True by done. simpl.
    destruct (emergencyExit_loop_total R (allocations s) s Hcode HR) as [s1 ->].
    simpl. eauto.
  - rewrite decide_True by done. simpl.
    by rewrite emergencyExit_loop_no_quote.
Qed.

(** C10, witness: no liquidity at all; A and B stay held, nothing listed. *)
Lemma emergencyExit_clears_allocations_witness :
  ∃ s', emergencyExitAllPositions Ex.deadRouter Ex.OWNER Ex.skewed = Ok s' ∧
        allocations s' = [] ∧ balance s' Ex.A = 550 ∧ balance s' Ex.B = 450.
Proof.
  destruct (emergencyExit_clears_allocations Ex.deadRouter Ex.OWNER Ex.skewed)
    as (_ & _ & H).
  destruct H as [H _].
  - reflexivity.
  - reflexivity.
  - intros e x p. reflexivity.
  - eexists. split; [exact H|]. repeat split; vm_compute; reflexivity.
Defined.

(** Without a contract at the router address the first exit swap is not
    skipped: the quote fails outside the try statement, the whole call
    reverts, and the Target Portfolio stays as it was. *)
Lemma emergencyExit_loop_without_router R allocs s :
  hasCode R = false → (∀ e x p, getAmountsOut R e x p = None) →
  Exists (λ a, is_other_holding s (token a)) allocs →
  emergencyExit_loop R allocs s = Revert CallFailed.
Proof.
  intros Hcode Hdead. induction allocs as [|a rest IH]; intros Hex;
    [by apply Exists_nil in Hex|].
  cbn [emergencyExit_loop].
  destruct (decide (token a = asset s)) as [Heq|Hne].
  { apply IH. apply Exists_cons in Hex as [[Hne _]|Hex]; [contradiction|done]. }
  destruct (decide (0 < balance s (token a))) as [Hpos|Hzero].
  - unfold _swapToken. rewrite decide_False by lia.
    by rewrite Hdead, Hcode.
  - apply IH. apply Exists_cons in Hex as [[_ Hpos]|Hex]; [contradiction|done].
Qed.

Lemma emergencyExit_without_router R s :
  hasCode R = false → (∀ e x p, getAmountsOut R e x p = None) →
  Exists (λ a, is_other_holding s (token a)) (allocations s) →
  emergencyExitAllPositions R (owner s) s = Revert CallFailed ∧
  transact (emergencyExitAllPositions R (owner s)) s = s.
Proof.
  intros Hcode Hdead Hex.
  assert (H : emergencyExitAllPositions R (owner s) s = Revert CallFailed).
  { unfold emergencyExitAllPositions, onlyOwner.
    rewrite (decide_True (P := owner s = owner s)) by done. simpl.
    by rewrite emergencyExit_loop_without_router. }
  split; [exact H|]. by rewrite (transact_revert _ _ _ H).
Qed.

(** The same exit of A and B as in the witness above, with no contract
    behind the router address. *)
Example exit_without_router :
  emergencyExitAllPositions Ex.noRouter Ex.OWNER Ex.skewed = Revert CallFailed ∧
  allocations (transact (emergencyExitAllPositions Ex.noRouter Ex.OWNER)
                        Ex.skewed)
  = allocations Ex.skewed.
Proof. split; vm_compute; reflexivity. Qed.

(** ** The spec's scenarios, run on the code *)

(** Section 8, first scenario: A is bought for 50 of base asset and B sold
    for 50.  The buy comes first in registry order, while the strategy has
    no base asset yet, so the exchange refuses it; the sale of B executes. *)
Example scenario_skewed :
  totalAssets Ex.skewed = Ok 1000 ∧
  ∃ s', _rebalancePortfolio Ex.parRouter Ex.skewed = Ok s' ∧
        swapCalls s' =
          [mkRouterCall 50 47 [Ex.USDT; Ex.WETH; Ex.A] false;
           mkRouterCall 50 47 [Ex.B; Ex.WETH; Ex.USDT] true] ∧
        balance s' Ex.A = 550 ∧ balance s' Ex.B = 400 ∧ balance s' Ex.USDT = 50.
Proof.
  split; [vm_compute; reflexivity|].
  eexists. split; [vm_compute; reflexivity|].
  repeat split; vm_compute; reflexivity.
Qed.

(** Section 8, proportionality: holdings worth 600 and 400 of a Total Value
    of 1000 are liquidated 60 : 40 for a needed amount of 100. *)
Example scenario_60_40 :
  spec_liquidateValue 600 100 1000 = 60 ∧ spec_liquidateValue 400 100 1000 = 40.
Proof. split; reflexivity. Qed.

(** Section 8, last scenario on a valid list: the same call with weights
    [6000, 4000] replaces the Target Portfolio. *)
Example scenario_valid_list :
  allocations (transact (setAllocations Ex.parRouter Ex.OWNER
                           [mkAllocation Ex.B 6000; mkAllocation Ex.A 4000])
                        Ex.balanced)
  = [mkAllocation Ex.B 6000; mkAllocation Ex.A 4000].
Proof. vm_compute. reflexivity. Qed.

(** * Further properties of the contract *)

(** ** Routes and the log of router calls *)

Lemma buildPath_shape s from to :
  from ≠ to →
  head (_buildPath s from to) = Some from ∧
  last (_buildPath s from to) = Some to ∧
  ((from = weth s ∨ to = weth s) ∧ _buildPath s from to = [from; to] ∨
   from ≠ weth s ∧ to ≠ weth s ∧ _buildPath s from to = [from; weth s; to]).
Proof.
  intros Hne. unfold _buildPath. rewrite decide_False by done.
  destruct (decide (from = weth s ∨ to = weth s)) as [Hw|Hw].
  - repeat split; try reflexivity. by left.
  - repeat split; try reflexivity. right. repeat split; try reflexivity; tauto.
Qed.

Lemma same_storage_refl s : same_storage s s.
Proof. by repeat split. Qed.

Lemma same_storage_trans s1 s2 s3 :
  same_storage s1 s2 → same_storage s2 s3 → same_storage s1 s3.
Proof.
  unfold same_storage. intros (?&?&?&?&?&?&?&?) (?&?&?&?&?&?&?&?).
  repeat split; congruence.
Qed.

(** What one call of [_swapToken] leaves behind: the storage as it was, and
    at most one logged router call, for exactly the requested amount along
    the built route. *)
Lemma swapToken_effect R from to amount s s' :
  _swapToken R from to amount s = Ok s' →
  same_storage s s' ∧
  (issued s s' [] ∧ balanceOf (env s') = balanceOf (env s) ∨
   ∃ c, issued s s' [c] ∧ from ≠ to ∧ amount ≠ 0 ∧
        amountIn c = amount ∧ path c = _buildPath s from to).
Proof.
  intros [[-> _]|(amounts & expected & Hne & Hamt & _ & _ & Hs')]%swapToken_cases.
  - split; [apply same_storage_refl|]. left. split; [|done].
    unfold issued. by rewrite app_nil_r.
  - simpl in Hs'.
    destruct (swapExactTokensForTokens R _ _ _ _); subst s';
      (split; [by repeat split|]); right; eexists; by repeat split.
Qed.

(** X1.  A router call issued by _swapToken(from, to, amount) spends exactly
    [amount], on a route that starts at [from] and ends at [to]: the direct
    pair when one of them is the bridge token, and otherwise the two-leg
    route through it.  The single-token route of _buildPath never reaches
    the exchange. *)
Theorem swap_route (R : Router) (from to : address) (amount : Z) (s s' : State) :
  _swapToken R from to amount s = Ok s' →
  ∀ c, c ∈ swapCalls s' → c ∉ swapCalls s →
    amountIn c = amount ∧ amount ≠ 0 ∧
    head (path c) = Some from ∧ last (path c) = Some to ∧
    ((from = weth s ∨ to = weth s) ∧ path c = [from; to] ∨
     from ≠ weth s ∧ to ≠ weth s ∧ path c = [from; weth s; to]).
Proof.
  intros H c Hin Hnew.
  destruct (swapToken_effect R from to amount s s' H)
    as (_ & [[Hiss _]|(c' & Hiss & Hne & Hamt & Hin' & Hpath)]);
    unfold issued in Hiss; rewrite Hiss in Hin.
  - rewrite app_nil_r in Hin. contradiction.
  - apply elem_of_app in Hin as [Hin|Hin%list_elem_of_singleton];
      [contradiction|]. subst c'.
    rewrite Hpath. split; [done|]. split; [done|]. by apply buildPath_shape.
Qed.

(** X1, witness: selling B into the base asset goes through the bridge. *)
Lemma swap_route_witness :
  ∃ s', _swapToken Ex.parRouter Ex.B Ex.USDT 50 Ex.skewed = Ok s' ∧
        Forall (λ c, path c = [Ex.B; Ex.WETH; Ex.USDT]) (swapCalls s').
Proof.
  assert (E : ∃ s', _swapToken Ex.parRouter Ex.B Ex.USDT 50 Ex.skewed = Ok s')
    by (eexists; vm_compute; reflexivity).
  destruct E as [s' E]. exists s'. split; [exact E|].
  apply Forall_forall. intros c Hin.
  destruct (swap_route Ex.parRouter Ex.B Ex.USDT 50 Ex.skewed s' E c Hin)
    as (_ & _ & _ & _ & [[[Hw|Hw] _]|(_ & _ & Hp)]).
  - vm_compute. intros Hnil. by apply elem_of_nil in Hnil.
  - vm_compute in Hw. discriminate.
  - vm_compute in Hw. discriminate.
  - exact Hp.
Defined.

(** ** What the passes leave behind *)

Lemma issued_nil s : issued s s [].
Proof. unfold issued. by rewrite app_nil_r. Qed.

Lemma issued_app s1 s2 s3 new1 new2 :
  issued s1 s2 new1 → issued s2 s3 new2 → issued s1 s3 (new1 ++ new2).
Proof. unfold issued. intros H1 H2. by rewrite H2, H1, app_assoc. Qed.

Lemma trades_swap R from to amount s s' c :
  _swapToken R from to amount s = Ok s' → issued s s' [c] →
  trades from to c ∧ amountIn c = amount.
Proof.
  intros H Hiss.
  destruct (swapToken_effect R from to amount s s' H)
    as (_ & [[Hnil _]|(c' & Hc' & Hne & Hamt & Hin & Hpath)]);
    unfold issued in *.
  - rewrite Hnil in Hiss. apply app_inv_head in Hiss. discriminate.
  - rewrite Hc' in Hiss. apply app_inv_head in Hiss. injection Hiss as <-.
    unfold trades. rewrite Hpath, Hin.
    destruct (buildPath_shape s from to Hne) as (Hh & Hl & _). done.
Qed.

(** The calls one swap can add, as a list. *)
Lemma swapToken_issues R from to amount s s' :
  _swapToken R from to amount s = Ok s' →
  same_storage s s' ∧
  ∃ new, issued s s' new ∧ (length new ≤ 1)%nat ∧
         Forall (λ c, trades from to c ∧ amountIn c = amount) new.
Proof.
  intros H.
  destruct (swapToken_effect R from to amount s s' H)
    as (Hst & [[Hnil _]|(c & Hc & _)]); split; try done.
  - exists []. repeat split; [done | simpl; lia | constructor].
  - exists [c]. repeat split; [done | simpl; lia |].
    constructor; [|constructor]. by eapply trades_swap.
Qed.

(** One step of the rebalancer: a buy out of the base asset or a sale into
    it, the sale never above the Holding. *)
Lemma rebalance_step_issues R tv a s s' :
  rebalance_step R tv a s = Ok s' →
  same_storage s s' ∧
  ∃ new, issued s s' new ∧ (length new ≤ 1)%nat ∧
    Forall (λ c, token a ≠ asset s ∧
                 (trades (asset s) (token a) c ∨
                  trades (token a) (asset s) c ∧
                  amountIn c ≤ balance s (token a))) new.
Proof.
  unfold rebalance_step. intros H.
  apply bind_Ok in H as (x & _ & H). apply bind_Ok in H as (target & _ & H).
  apply bind_Ok in H as (cur & _ & H). apply bind_Ok in H as (thr & _ & H).
  apply bind_Ok in H as (lhs & _ & H).
  assert (Hnone : same_storage s s ∧
    ∃ new, issued s s new ∧ (length new ≤ 1)%nat ∧
      Forall (λ c, token a ≠ asset s ∧
                   (trades (asset s) (token a) c ∨
                    trades (token a) (asset s) c ∧
                    amountIn c ≤ balance s (token a))) new).
  { split; [apply same_storage_refl|]. exists [].
    repeat split; [apply issued_nil | simpl; lia | constructor]. }
  destruct (decide (lhs < target)).
  - apply bind_Ok in H as (buy & _ & H).
    destruct (decide (token a = asset s)) as [Heq|Hne].
    { rewrite Heq, swap_same_token in H. by injection H as <-. }
    destruct (swapToken_issues R _ _ _ _ _ H) as (Hst & new & Hiss & Hlen & Hall).
    split; [done|]. exists new. repeat split; try done.
    eapply Forall_impl; [exact Hall|]. intros c [Ht _]. simpl.
    split; [done | by left].
  - apply bind_Ok in H as (rhs & _ & H).
    destruct (decide (rhs < cur)); [|by injection H as <-].
    apply bind_Ok in H as (sell & _ & H).
    destruct (decide (token a ≠ asset s)) as [Hne|]; [|by injection H as <-].
    apply bind_Ok in H as (amt & _ & H).
    destruct (swapToken_issues R _ _ _ _ _ H) as (Hst & new & Hiss & Hlen & Hall).
    split; [done|]. exists new. repeat split; try done.
    eapply Forall_impl; [exact Hall|]. intros c [Ht ->]. simpl.
    split; [done|]. right. split; [done|]. case_decide; lia.
Qed.

Lemma liquidate_step_issues R n tv a s s' :
  liquidate_step R n tv a s = Ok s' →
  same_storage s s' ∧
  ∃ new, issued s s' new ∧ (length new ≤ 1)%nat ∧
    Forall (λ c, token a ≠ asset s ∧ trades (token a) (asset s) c ∧
                 amountIn c ≤ balance s (token a)) new.
Proof.
  unfold liquidate_step. intros H.
  assert (Hnone : same_storage s s ∧
    ∃ new, issued s s new ∧ (length new ≤ 1)%nat ∧
      Forall (λ c, token a ≠ asset s ∧ trades (token a) (asset s) c ∧
                   amountIn c ≤ balance s (token a)) new).
  { split; [apply same_storage_refl|]. exists [].
    repeat split; [apply issued_nil | simpl; lia | constructor]. }
  destruct (decide (token a = asset s)) as [|Hne]; [by injection H as <-|].
  destruct (decide (balance s (token a) = 0)); [by injection H as <-|].
  apply bind_Ok in H as (v & _ & H). apply bind_Ok in H as (x & _ & H).
  apply bind_Ok in H as (lv & _ & H).
  destruct (decide (0 < lv)); [|by injection H as <-].
  apply bind_Ok in H as (amt & _ & H).
  destruct (swapToken_issues R _ _ _ _ _ H) as (Hst & new & Hiss & Hlen & Hall).
  split; [done|]. exists new. repeat split; try done.
  eapply Forall_impl; [exact Hall|]. intros c [Ht ->]. simpl.
  split; [done|]. split; [done|]. case_decide; lia.
Qed.

Lemma pass_call_cons s a allocs b c :
  pass_call s allocs b c → pass_call s (a :: allocs) b c.
Proof.
  intros (x & Hin & H). exists x. split; [by apply list_elem_of_further | done].
Qed.

Lemma pass_call_storage s s' allocs b c :
  same_storage s s' → pass_call s' allocs b c → pass_call s allocs b c.
Proof. intros (_ & _ & _ & Ha & _). unfold pass_call. by rewrite Ha. Qed.

Lemma rebalance_loop_issues R tv allocs : ∀ s s',
  rebalance_loop R tv allocs s = Ok s' →
  same_storage s s' ∧
  ∃ new, issued s s' new ∧ (length new ≤ length allocs)%nat ∧
         Forall (pass_call s allocs false) new.
Proof.
  induction allocs as [|a rest IH]; intros s s' H.
  - injection H as <-. split; [apply same_storage_refl|]. exists [].
    repeat split; [apply issued_nil | simpl; lia | constructor].
  - cbn [rebalance_loop] in H. apply bind_Ok in H as (s1 & H1 & H).
    destruct (rebalance_step_issues R tv a s s1 H1)
      as (Hst1 & new1 & Hiss1 & Hlen1 & Hall1).
    destruct (IH s1 s' H) as (Hst2 & new2 & Hiss2 & Hlen2 & Hall2).
    split; [by eapply same_storage_trans|].
    exists (new1 ++ new2). repeat split.
    + by eapply issued_app.
    + rewrite length_app. simpl. lia.
    + apply Forall_app. split.
      * eapply Forall_impl; [exact Hall1|]. intros c [Hne Hc].
        exists a. split; [apply list_elem_of_here|]. split; [done|].
        destruct Hc as [Hb|[Hs _]]; [by right | by left].
      * eapply Forall_impl; [exact Hall2|]. intros c Hc.
        apply pass_call_cons. by eapply pass_call_storage.
Qed.

Lemma liquidate_loop_issues R n tv allocs : ∀ s s',
  liquidate_loop R n tv allocs s = Ok s' →
  same_storage s s' ∧
  ∃ new, issued s s' new ∧ (length new ≤ length allocs)%nat ∧
         Forall (pass_call s allocs true) new.
Proof.
  induction allocs as [|a rest IH]; intros s s' H.
  - injection H as <-. split; [apply same_storage_refl|]. exists [].
    repeat split; [apply issued_nil | simpl; lia | constructor].
  - cbn [liquidate_loop] in H. apply bind_Ok in H as (s1 & H1 & H).
    destruct (liquidate_step_issues R n tv a s s1 H1)
      as (Hst1 & new1 & Hiss1 & Hlen1 & Hall1).
    destruct (IH s1 s' H) as (Hst2 & new2 & Hiss2 & Hlen2 & Hall2).
    split; [by eapply same_storage_trans|].
    exists (new1 ++ new2). repeat split.
    + by eapply issued_app.
    + rewrite length_app. simpl. lia.
    + apply Forall_app. split.
      * eapply Forall_impl; [exact Hall1|]. intros c (Hne & Hc & _).
        exists a. split; [apply list_elem_of_here|]. split; [done | by left].
      * eapply Forall_impl; [exact Hall2|]. intros c Hc.
        apply pass_call_cons. by eapply pass_call_storage.
Qed.

Lemma emergencyExit_loop_issues R allocs : ∀ s s',
  emergencyExit_loop R allocs s = Ok s' →
  same_storage s s' ∧
  ∃ new, issued s s' new ∧ (length new ≤ length allocs)%nat ∧
         Forall (pass_call s allocs true) new.
Proof.
  induction allocs as [|a rest IH]; intros s s' H.
  - injection H as <-. split; [apply same_storage_refl|]. exists [].
    repeat split; [apply issued_nil | simpl; lia | constructor].
  - cbn [emergencyExit_loop] in H.
    assert (Hskip : emergencyExit_loop R rest s = Ok s' →
      same_storage s s' ∧
      ∃ new, issued s s' new ∧ (length new ≤ length (a :: rest))%nat ∧
             Forall (pass_call s (a :: rest) true) new).
    { intros H0. destruct (IH s s' H0) as (Hst & new & Hiss & Hlen & Hall).
      split; [done|]. exists new. repeat split; [done | simpl; lia |].
      eapply Forall_impl; [exact Hall|]. intros c. apply pass_call_cons. }
    destruct (decide (token a = asset s)) as [|Hne]; [by apply Hskip|].
    destruct (decide (0 < balance s (token a))); [|by apply Hskip].
    apply bind_Ok in H as (s1 & H1 & H).
    destruct (swapToken_issues R _ _ _ _ _ H1)
      as (Hst1 & new1 & Hiss1 & Hlen1 & Hall1).
    destruct (IH s1 s' H) as (Hst2 & new2 & Hiss2 & Hlen2 & Hall2).
    split; [by eapply same_storage_trans|].
    exists (new1 ++ new2). repeat split.
    + by eapply issued_app.
    + rewrite length_app. simpl. lia.
    + apply Forall_app. split.
      * eapply Forall_impl; [exact Hall1|]. intros c [Hc _].
        exists a. split; [apply list_elem_of_here|]. split; [done | by left].
      * eapply Forall_impl; [exact Hall2|]. intros c Hc.
        apply pass_call_cons. by eapply pass_call_storage.
Qed.

Lemma rebalancePortfolio_issues R s s' :
  _rebalancePortfolio R s = Ok s' →
  same_storage s s' ∧
  ∃ new, issued s s' new ∧ (length new ≤ length (allocations s))%nat ∧
         Forall (pass_call s (allocations s) false) new.
Proof.
  unfold _rebalancePortfolio. intros H.
  assert (Hnone : same_storage s s ∧
    ∃ new, issued s s new ∧ (length new ≤ length (allocations s))%nat ∧
           Forall (pass_call s (allocations s) false) new).
  { split; [apply same_storage_refl|]. exists [].
    repeat split; [apply issued_nil | simpl; lia | constructor]. }
  destruct (decide (allocations s = [])); [by injection H as <-|].
  apply bind_Ok in H as (tv & _ & H).
  destruct (decide (tv = 0)); [by injection H as <-|].
  by apply rebalance_loop_issues in H.
Qed.

Lemma liquidateForWithdrawal_issues R n s s' :
  _liquidateForWithdrawal R n s = Ok s' →
  same_storage s s' ∧
  ∃ new, issued s s' new ∧ (length new ≤ length (allocations s))%nat ∧
         Forall (pass_call s (allocations s) true) new.
Proof.
  unfold _liquidateForWithdrawal. intros H.
  assert (Hnone : same_storage s s ∧
    ∃ new, issued s s new ∧ (length new ≤ length (allocations s))%nat ∧
           Forall (pass_call s (allocations s) true) new).
  { split; [apply same_storage_refl|]. exists [].
    repeat split; [apply issued_nil | simpl; lia | constructor]. }
  destruct (decide (allocations s = [])); [by injection H as <-|].
  apply bind_Ok in H as (tv & _ & H).
  destruct (decide (tv = 0)); [by injection H as <-|].
  by apply liquidate_loop_issues in H.
Qed.

(** X2.  A rebalance pass (and so invest) never writes to the contract's
    storage: owner, vault, router, allow-list, feed bindings and the Target
    Portfolio are as before.  It issues at most one router call per listed
    allocation, and every call trades a listed non-base token against the
    base asset, in one direction or the other, for a nonzero amount. *)
Theorem rebalance_pass_calls (R : Router) (s s' : State) :
  _rebalancePortfolio R s = Ok s' ∨
  (∃ caller amount, invest R caller amount s = Ok s') →
  same_storage s s' ∧
  ∃ new, issued s s' new ∧
         (length new ≤ length (allocations s))%nat ∧
         Forall (pass_call s (allocations s) false) new.
Proof.
  intros [H|(caller & amount & H)]; [by apply (rebalancePortfolio_issues R)|].
  unfold invest in H. apply bind_Ok in H as (_ & _ & H).
  apply bind_Ok in H as (_ & _ & H).
  destruct (decide (allocations s ≠ [])); [by apply (rebalancePortfolio_issues R)|].
  injection H as <-. split; [apply same_storage_refl|]. exists [].
  repeat split; [apply issued_nil | simpl; lia | constructor].
Qed.

(** X2, witness: the skewed portfolio, two calls for two allocations. *)
Lemma rebalance_pass_calls_witness :
  ∃ s' new, _rebalancePortfolio Ex.parRouter Ex.skewed = Ok s' ∧
            issued Ex.skewed s' new ∧ (length new ≤ 2)%nat ∧
            allocations s' = allocations Ex.skewed.
Proof.
  assert (E : ∃ s', _rebalancePortfolio Ex.parRouter Ex.skewed = Ok s')
    by (eexists; vm_compute; reflexivity).
  destruct E as [s' E]. exists s'.
  destruct (rebalance_pass_calls Ex.parRouter Ex.skewed s' (or_introl E))
    as ((_ & _ & _ & _ & _ & Hal & _) & new & Hiss & Hlen & _).
  exists new. repeat split; assumption.
Defined.

(** X3.  A liquidation pass and the emergency exit only ever sell: every
    router call they issue sells a listed non-base token into the base
    asset for a nonzero amount, at most one call per listed allocation.
    Liquidation leaves the storage untouched; the emergency exit changes
    nothing in it but the Target Portfolio, which it empties. *)
Theorem sell_only_passes (R : Router) (s s' : State) :
  (∀ n, _liquidateForWithdrawal R n s = Ok s' →
     same_storage s s' ∧
     ∃ new, issued s s' new ∧ (length new ≤ length (allocations s))%nat ∧
            Forall (pass_call s (allocations s) true) new) ∧
  (∀ caller, emergencyExitAllPositions R caller s = Ok s' →
     same_storage (set_allocations [] s) s' ∧
     ∃ new, issued s s' new ∧ (length new ≤ length (allocations s))%nat ∧
            Forall (pass_call s (allocations s) true) new).
Proof.
  split.
  - intros n H. by apply (liquidateForWithdrawal_issues R n).
  - intros caller H. unfold emergencyExitAllPositions in H.
    apply bind_Ok in H as (_ & _ & H). apply bind_Ok in H as (s1 & H1 & H).
    injection H as <-.
    destruct (emergencyExit_loop_issues R _ _ _ H1)
      as ((?&?&?&?&?&?&?&?) & new & Hiss & Hlen & Hall).
    split; [by repeat split|]. exists new. by repeat split.
Qed.

(** X3, witness: liquidate(50) with only A listed issues one sale of A. *)
Lemma sell_only_passes_witness :
  ∃ s' new, _liquidateForWithdrawal Ex.parRouter 50 Ex.unlisted_X = Ok s' ∧
            issued Ex.unlisted_X s' new ∧ (length new ≤ 1)%nat.
Proof.
  assert (E : ∃ s', _liquidateForWithdrawal Ex.parRouter 50 Ex.unlisted_X = Ok s')
    by (eexists; vm_compute; reflexivity).
  destruct E as [s' E]. exists s'.
  destruct (sell_only_passes Ex.parRouter Ex.unlisted_X s') as [H _].
  destruct (H 50 E) as (_ & new & Hiss & Hlen & _).
  exists new. repeat split; assumption.
Defined.

(** X4.  Never oversell: whatever a rebalance step or a liquidation step
    sells of its token, the amount handed to the exchange is at most the
    strategy's Holding of that token when the step starts. *)
Theorem step_never_oversells (R : Router) (a : TokenAllocation) (s s' : State) :
  (∃ tv, rebalance_step R tv a s = Ok s') ∨
  (∃ n tv, liquidate_step R n tv a s = Ok s') →
  ∀ c, c ∈ swapCalls s' → c ∉ swapCalls s →
       head (path c) = Some (token a) →
       token a ≠ asset s ∧ last (path c) = Some (asset s) ∧
       amountIn c ≤ balance s (token a).
Proof.
  intros H c Hin Hold Hhead.
  destruct H as [[tv H]|(n & tv & H)].
  - destruct (rebalance_step_issues R tv a s s' H) as (_ & new & Hiss & _ & Hall).
    unfold issued in Hiss. rewrite Hiss in Hin.
    apply elem_of_app in Hin as [?|Hin]; [contradiction|].
    rewrite Forall_forall in Hall.
    destruct (Hall c Hin) as (Hne & [(Hh & _)|((_ & Hl & _) & Hcap)]);
      [congruence | done].
  - destruct (liquidate_step_issues R n tv a s s' H) as (_ & new & Hiss & _ & Hall).
    unfold issued in Hiss. rewrite Hiss in Hin.
    apply elem_of_app in Hin as [?|Hin]; [contradiction|].
    rewrite Forall_forall in Hall.
    destruct (Hall c Hin) as (Hne & (_ & Hl & _) & Hcap). done.
Qed.

(** X4, witness: B is overweight by 50 and 50 of its 450 are sold. *)
Lemma step_never_oversells_witness :
  ∃ s', rebalance_step Ex.parRouter 1000 (mkAllocation Ex.B 4000) Ex.skewed
        = Ok s' ∧
        Forall (λ c, head (path c) = Some Ex.B → amountIn c ≤ 450)
               (swapCalls s').
Proof.
  assert (E : ∃ s', rebalance_step Ex.parRouter 1000 (mkAllocation Ex.B 4000)
                      Ex.skewed = Ok s')
    by (eexists; vm_compute; reflexivity).
  destruct E as [s' E]. exists s'. split; [exact E|].
  apply Forall_forall. intros c Hin Hhead.
  destruct (step_never_oversells Ex.parRouter (mkAllocation Ex.B 4000)
              Ex.skewed s' (or_introl (ex_intro _ 1000 E)) c Hin)
    as (_ & _ & Hcap).
  - vm_compute. intros Hnil. by apply elem_of_nil in Hnil.
  - exact Hhead.
  - exact Hcap.
Defined.

(** ** The allocation registry on success *)

Lemma setAllocations_loop_ok l : ∀ s acc s' total,
  setAllocations_loop l s acc = Ok (s', total) →
  Forall (valid_allocation s) l ∧
  total = acc + sum_weights l ∧
  s' = set_allocations (allocations s ++ l) s.
Proof.
  induction l as [|a rest IH]; intros s acc s' total H.
  - injection H as <- <-. repeat split; [constructor | |].
    + unfold sum_weights, sumZ. simpl. lia.
    + rewrite app_nil_r. by destruct s.
  - cbn [setAllocations_loop] in H.
    apply bind_Ok in H as (_ & H1%require_inv & H).
    apply bind_Ok in H as (_ & H2%require_inv & H).
    apply bind_Ok in H as (_ & H3%require_inv & H).
    apply bind_Ok in H as (_ & H4%require_inv & H).
    apply bind_Ok in H as (acc' & ->%checked_add_inv & H).
    apply IH in H as (Hall & -> & ->). repeat split.
    + apply Forall_cons. split; [done | exact Hall].
    + change (sum_weights (a :: rest)) with (percentage a + sum_weights rest). lia.
    + simpl. by rewrite <- app_assoc.
Qed.

Lemma setAllocations_loop_accepts l : ∀ s acc,
  Forall (valid_allocation s) l → 0 ≤ acc →
  acc + sum_weights l ≤ MAX_UINT256 →
  setAllocations_loop l s acc
  = Ok (set_allocations (allocations s ++ l) s, acc + sum_weights l).
Proof.
  induction l as [|a rest IH]; intros s acc Hall Hacc Hfit.
  - simpl. rewrite app_nil_r. unfold sum_weights, sumZ. simpl.
    rewrite Z.add_0_r. by destruct s.
  - apply Forall_cons in Hall as [(H1 & H2 & H3 & H4) Hrest].
    change (sum_weights (a :: rest)) with (percentage a + sum_weights rest) in *.
    assert (0 ≤ sum_weights rest).
    { apply sum_weights_nonneg. eapply Forall_impl; [exact Hrest|].
      intros x (_ & _ & Hx & _). lia. }
    cbn [setAllocations_loop].
    rewrite !require_true by done. simpl.
    rewrite checked_add_ok by lia. simpl.
    rewrite IH by (done || lia). simpl.
    rewrite <- app_assoc. do 2 f_equal. lia.
Qed.

Lemma setAllocations_ok R caller l s s' :
  setAllocations R caller l s = Ok s' →
  caller = owner s ∧
  Z.of_nat (length l) ≤ MAX_ALLOCATIONS ∧
  Forall (valid_allocation s) l ∧
  sum_weights l ≤ MAX_BPS ∧
  same_storage (set_allocations l s) s'.
Proof.
  unfold setAllocations, onlyOwner. intros H.
  destruct (decide (caller = owner s)) as [Hown|]; [|discriminate]. simpl in H.
  apply bind_Ok in H as (_ & Hlen%require_inv & H).
  apply bind_Ok in H as ([s1 total] & Hloop & H).
  apply setAllocations_loop_ok in Hloop as (Hall & -> & ->).
  apply bind_Ok in H as (_ & Hsum%require_inv & H).
  apply bind_Ok in H as (s2 & Hreb & H).
  apply bind_Ok in H as (_ & _ & H). injection H as <-.
  split; [done|]. split; [done|]. split; [exact Hall|]. split; [lia|].
  simpl in Hreb.
  destruct (decide _) in Hreb.
  - by apply rebalancePortfolio_issues in Hreb as [Hst _].
  - injection Hreb as <-. by repeat split.
Qed.

(** X5.  Whenever setAllocations returns, the caller was the owner, the
    Target Portfolio is exactly the submitted list (nothing of the old one
    survives, nothing is reordered or merged), the list has at most 10
    entries, each with a nonzero allowed token, a nonzero weight and a feed
    binding, its weights sum to at most 10000 bps, and no other storage
    field has changed. *)
Theorem setAllocations_installs (R : Router) (caller : address)
  (l : list TokenAllocation) (s s' : State) :
  setAllocations R caller l s = Ok s' →
  caller = owner s ∧
  getAllocations s' = l ∧
  getAllocationsCount s' ≤ MAX_ALLOCATIONS ∧
  Forall (valid_allocation s) l ∧
  sum_weights l ≤ MAX_BPS ∧
  owner s' = owner s ∧ vault s' = vault s ∧ router s' = router s ∧
  allowedTokens s' = allowedTokens s ∧ priceFeeds s' = priceFeeds s.
Proof.
  intros (Hown & Hlen & Hall & Hsum & Hst)%setAllocations_ok.
  destruct Hst as (?&?&?&?&?&Hal&?&?). simpl in *.
  unfold getAllocations, getAllocationsCount. rewrite Hal.
  repeat split; done.
Qed.

(** X5, witness: the owner lists A at 5000 bps on the prepared strategy. *)
Lemma setAllocations_installs_witness :
  ∃ s', setAllocations Ex.parRouter Ex.OWNER [mkAllocation Ex.A 5000] Ex.prepared
        = Ok s' ∧ getAllocations s' = [mkAllocation Ex.A 5000].
Proof.
  assert (E : ∃ s', setAllocations Ex.parRouter Ex.OWNER
                      [mkAllocation Ex.A 5000] Ex.prepared = Ok s')
    by (eexists; vm_compute; reflexivity).
  destruct E as [s' E]. exists s'. split; [exact E|].
  by destruct (setAllocations_installs _ _ _ _ _ E) as (_ & H & _).
Defined.

Lemma totalAssets_loop_no_holdings s allocs acc :
  Forall (λ a, balance s (token a) ≤ 0) allocs →
  totalAssets_loop s allocs acc = Ok acc.
Proof.
  induction 1 as [|a rest Ha _ IH]; [done|]. cbn [totalAssets_loop].
  destruct (decide (token a ≠ asset s)); [|done].
  rewrite decide_False by lia. done.
Qed.

(** X6.  Take a strategy that holds none of the base asset and none of the
    tokens of a list, the base asset and those tokens being token contracts.
    If the list has at most 10 valid entries whose weights sum to at most
    10000 bps, it is accepted when the owner submits it, whatever the
    prices: it becomes the Target Portfolio, no valuation is attempted and
    no router call is made.  The same token may appear more than once. *)
Theorem setAllocations_accepts_on_empty_strategy (R : Router)
  (l : list TokenAllocation) (s : State) :
  Z.of_nat (length l) ≤ MAX_ALLOCATIONS →
  Forall (valid_allocation s) l →
  sum_weights l ≤ MAX_BPS →
  holds_none s (asset s) →
  Forall (λ a, holds_none s (token a)) l →
  setAllocations R (owner s) l s = Ok (set_allocations l s).
Proof.
  intros Hlen Hall Hsum Hbase Hnone.
  assert (Hzero : ∀ t, holds_none s t → balance s t = 0)
    by (intros t Ht; unfold balance; by rewrite Ht).
  unfold setAllocations, onlyOwner. rewrite decide_True by done. simpl.
  rewrite require_true by done. simpl.
  rewrite (setAllocations_loop_accepts l (set_allocations [] s) 0)
    by (done || unfold MAX_BPS, MAX_UINT256 in *; lia).
  simpl. rewrite Z.add_0_l.
  rewrite require_true by done. simpl.
  apply Hzero in Hbase.
  rewrite decide_False by (unfold balance in *; simpl; lia). simpl.
  unfold totalAssets. simpl.
  rewrite totalAssets_loop_no_holdings; [done|].
  eapply Forall_impl; [exact Hnone|]. intros a Ha.
  apply Hzero in Ha. unfold balance in *. simpl. lia.
Qed.

(** X6, witness: A listed twice, 3000 + 3000 bps, on the prepared strategy
    in a world where A and the base asset are deployed and not held. *)
Lemma setAllocations_accepts_on_empty_strategy_witness :
  setAllocations Ex.parRouter Ex.OWNER
    [mkAllocation Ex.A 3000; mkAllocation Ex.A 3000] Ex.unfunded
  = Ok (set_allocations [mkAllocation Ex.A 3000; mkAllocation Ex.A 3000]
          Ex.unfunded).
Proof.
  apply (setAllocations_accepts_on_empty_strategy Ex.parRouter
           [mkAllocation Ex.A 3000; mkAllocation Ex.A 3000] Ex.unfunded).
  - vm_compute. congruence.
  - repeat constructor; try (vm_compute; congruence);
      apply (bool_decide_unpack _); vm_compute; exact I.
  - vm_compute. congruence.
  - reflexivity.
  - repeat constructor.
Defined.

(** ** Invariants of the storage *)

Lemma registry_invariant_storage s s' :
  same_storage s s' → registry_invariant s → registry_invariant s'.
Proof.
  intros (Ho & Hv & Hr & Ha & Hw & Hal & Hat & Hpf).
  unfold registry_invariant, priceFeed. by rewrite Hv, Hr, Ha, Hw, Hal, Hat, Hpf.
Qed.

Lemma registry_invariant_list l s :
  Z.of_nat (length l) ≤ MAX_ALLOCATIONS → Forall (valid_allocation s) l →
  sum_weights l ≤ MAX_BPS → registry_invariant s →
  registry_invariant (set_allocations l s).
Proof.
  intros Hlen Hall Hsum (_ & _ & _ & Hrest). unfold registry_invariant. simpl.
  split; [done|]. split; [|by split].
  eapply Forall_impl; [exact Hall|]. intros a (H1 & _ & H3 & H4). done.
Qed.

Lemma freeFunds_storage R caller amount s s' :
  freeFunds R caller amount s = Ok s' → same_storage s s'.
Proof.
  unfold freeFunds. intros H.
  apply bind_Ok in H as (_ & _ & H). apply bind_Ok in H as (_ & _ & H).
  apply bind_Ok in H as (s1 & H1 & H).
  assert (Hst : same_storage s s1).
  { destruct (decide _) in H1; [|injection H1 as <-; apply same_storage_refl].
    apply bind_Ok in H1 as (d & _ & H1).
    by apply liquidateForWithdrawal_issues in H1 as [Hst _]. }
  eapply same_storage_trans; [exact Hst|].
  destruct (decide _) in H; [|injection H as <-; apply same_storage_refl].
  unfold transferOut in H. destruct (decide _) in H; [|discriminate].
  injection H as <-. by repeat split.
Qed.

(** Every call that returns keeps the invariant. *)
Lemma execute_invariant R caller c s s' :
  execute R caller c s = Ok s' → registry_invariant s → registry_invariant s'.
Proof.
  intros H Hinv. destruct c; simpl in H.
  - eapply registry_invariant_storage; [|exact Hinv].
    unfold invest in H. apply bind_Ok in H as (_ & _ & H).
    apply bind_Ok in H as (_ & _ & H).
    destruct (decide _) in H; [|injection H as <-; apply same_storage_refl].
    by apply rebalancePortfolio_issues in H as [Hst _].
  - eapply registry_invariant_storage; [|exact Hinv].
    by eapply freeFunds_storage.
  - apply setAllocations_ok in H as (_ & Hlen & Hall & Hsum & Hst).
    eapply registry_invariant_storage; [exact Hst|].
    by apply registry_invariant_list.
  - unfold allowToken in H. apply bind_Ok in H as (_ & _ & H).
    apply bind_Ok in H as (_ & _ & H). injection H as <-.
    destruct Hinv as (?&?&?&Hin&?). unfold registry_invariant. simpl.
    do 3 (split; [done|]). split; [|done]. by apply elem_of_union_r.
  - unfold disallowToken in H. apply bind_Ok in H as (_ & _ & H).
    apply bind_Ok in H as (_ & Hne%require_inv & H). injection H as <-.
    destruct Hinv as (?&?&?&Hin&?). unfold registry_invariant. simpl.
    do 3 (split; [done|]). split; [|done].
    apply elem_of_difference. split; [done|].
    intros ?%elem_of_singleton. congruence.
  - unfold setPriceFeed in H. apply bind_Ok in H as (_ & _ & H).
    apply bind_Ok in H as (_ & _ & H).
    apply bind_Ok in H as (_ & Hf%require_inv & H). injection H as <-.
    destruct Hinv as (?&Hall&?&?&?). unfold registry_invariant. simpl.
    split; [done|]. split; [|done].
    eapply Forall_impl; [exact Hall|]. intros a (Ha1 & Ha2 & Ha3).
    split; [done|]. split; [done|]. unfold priceFeed in *. simpl.
    destruct (decide (tok = token a)) as [->|Hne].
    + by rewrite lookup_insert_eq.
    + by rewrite lookup_insert_ne.
  - unfold setVault in H. apply bind_Ok in H as (_ & _ & H).
    apply bind_Ok in H as (_ & Hv%require_inv & H). injection H as <-.
    destruct Hinv as (?&?&?&?&?&?&?&?). by repeat split.
  - unfold setRouter in H. apply bind_Ok in H as (_ & _ & H).
    apply bind_Ok in H as (_ & Hv%require_inv & H). injection H as <-.
    destruct Hinv as (?&?&?&?&?&?&?&?). by repeat split.
  - unfold emergencyExitAllPositions in H. apply bind_Ok in H as (_ & _ & H).
    apply bind_Ok in H as (s1 & H1 & H). injection H as <-.
    apply emergencyExit_loop_issues in H1 as [Hst _].
    apply (registry_invariant_storage _ _ Hst) in Hinv.
    destruct Hinv as (_ & _ & _ & Hrest). unfold registry_invariant. simpl.
    split; [unfold MAX_ALLOCATIONS; lia|]. split; [constructor|].
    split; [|done]. unfold sum_weights, sumZ, MAX_BPS. simpl. lia.
  - eapply registry_invariant_storage; [|exact Hinv].
    unfold emergencyWithdraw in H. apply bind_Ok in H as (_ & _ & H).
    destruct (decide _) in H; injection H as <-; by repeat split.
Qed.

Lemma weights_bounded l :
  Forall (λ a, 0 < percentage a) l → sum_weights l ≤ MAX_BPS →
  Forall (λ a, 0 < percentage a ≤ MAX_BPS) l.
Proof.
  induction 1 as [|a rest Ha Hrest IH]; intros Hsum; [constructor|].
  change (sum_weights (a :: rest)) with (percentage a + sum_weights rest) in Hsum.
  assert (0 ≤ sum_weights rest).
  { apply sum_weights_nonneg. eapply Forall_impl; [exact Hrest|].
    intros x Hx. simpl in Hx. lia. }
  constructor; [lia|]. apply IH. lia.
Qed.

(** X7.  In every state the deployed contract can reach, by any sequence of
    calls from anyone, with the outside world and the owner changing in
    between, the Target Portfolio has at most 10 entries, each with a
    nonzero token, a feed binding and a weight between 1 and 10000 bps, the
    weights sum to at most 10000 bps, the base asset is on the allow-list,
    and asset, vault, router and bridge token are not the zero address. *)
Theorem reachable_registry_invariant (s : State) :
  reachable s →
  registry_invariant s ∧
  Forall (λ a, 0 < percentage a ≤ MAX_BPS) (allocations s).
Proof.
  intros Hreach.
  assert (Hinv : registry_invariant s).
  { induction Hreach as [a v r w o e s Hdep|R caller c s _ IH|e s _ IH|o s _ IH].
    - unfold constructor in Hdep.
      repeat (destruct (decide _) in Hdep; [discriminate|]).
      injection Hdep as <-. unfold registry_invariant. simpl.
      split; [unfold MAX_ALLOCATIONS; lia|]. split; [constructor|].
      split; [unfold sum_weights, sumZ, MAX_BPS; simpl; lia|].
      split; [by apply elem_of_singleton|]. done.
    - unfold transact. destruct (execute R caller c s) as [s'|] eqn:E; [|done].
      by eapply execute_invariant.
    - eapply registry_invariant_storage; [|exact IH]. by repeat split.
    - exact IH. }
  split; [exact Hinv|].
  destruct Hinv as (_ & Hall & Hsum & _).
  apply weights_bounded; [|done].
  eapply Forall_impl; [exact Hall|]. intros a (_ & H & _). exact H.
Qed.

(** X7, witness: deploy, then the owner allows A, binds its feed and lists
    it. *)
Lemma reachable_registry_invariant_witness :
  registry_invariant
    (transact (execute Ex.parRouter Ex.OWNER
                 (CallSetAllocations [mkAllocation Ex.A 5000]))
       (transact (execute Ex.parRouter Ex.OWNER
                    (CallSetPriceFeed Ex.A (Ex.feedOf Ex.A)))
          (transact (execute Ex.parRouter Ex.OWNER (CallAllowToken Ex.A))
             Ex.deployed))).
Proof.
  apply reachable_registry_invariant.
  do 3 apply reach_call.
  apply (reach_deploy Ex.USDT Ex.VAULT Ex.ROUTER Ex.WETH Ex.OWNER Ex.emptyEnv).
  reflexivity.
Defined.

(** ** Access control *)

(** X8.  Every state-changing function the contract declares is closed to
    strangers: invest and freeFunds revert with "only vault" for any caller
    but the vault, every other function reverts as unauthorized for any
    caller but the owner, and in both cases the transaction leaves the
    state untouched. *)
Theorem entry_points_guarded (R : Router) (caller : address) (c : Call)
  (s : State) :
  (vault_call c = true → caller ≠ vault s →
     execute R caller c s = Revert (RequireFailed "AIBasketStrategy: only vault")) ∧
  (vault_call c = false → caller ≠ owner s →
     execute R caller c s = Revert Unauthorized) ∧
  (caller ≠ vault s → caller ≠ owner s → transact (execute R caller c) s = s).
Proof.
  assert (Hv : vault_call c = true → caller ≠ vault s →
    execute R caller c s = Revert (RequireFailed "AIBasketStrategy: only vault")).
  { intros Hc Hne. destruct c; try discriminate; simpl;
      unfold invest, freeFunds, onlyVault;
      rewrite (require_false (caller = vault s) _ Hne); reflexivity. }
  assert (Ho : vault_call c = false → caller ≠ owner s →
    execute R caller c s = Revert Unauthorized).
  { intros Hc Hne. destruct c; try discriminate; simpl;
      unfold setAllocations, allowToken, disallowToken, setPriceFeed, setVault,
        setRouter, emergencyExitAllPositions, emergencyWithdraw, onlyOwner;
      rewrite (decide_False (P := caller = owner s)) by exact Hne; reflexivity. }
  split; [exact Hv|]. split; [exact Ho|].
  intros Hnv Hno. destruct (vault_call c) eqn:Hc.
  - by rewrite (transact_revert _ _ _ (Hv eq_refl Hnv)).
  - by rewrite (transact_revert _ _ _ (Ho eq_refl Hno)).
Qed.

(** X8, witness: the vault may not replace the Target Portfolio. *)
Lemma entry_points_guarded_witness :
  execute Ex.parRouter Ex.VAULT (CallSetAllocations []) Ex.balanced
  = Revert Unauthorized.
Proof.
  destruct (entry_points_guarded Ex.parRouter Ex.VAULT (CallSetAllocations [])
              Ex.balanced) as (_ & H & _).
  apply H; [reflexivity | vm_compute; discriminate].
Defined.

(** ** freeFunds and emergencyWithdraw *)

Lemma balance_set s e t :
  balance (set_env e s) t = default 0 (balanceOf e !! t).
Proof. reflexivity. Qed.

Lemma transferOut_effect amount s s' :
  transferOut amount s = Ok s' →
  amount ≤ balance s (asset s) ∧
  balance s' (asset s) = balance s (asset s) - amount ∧
  (∀ t, t ≠ asset s → balance s' t = balance s t) ∧
  swapCalls s' = swapCalls s ∧ same_storage s s'.
Proof.
  unfold transferOut. case_decide; [|discriminate]. intros [= <-].
  split; [done|]. split; [|split; [|by repeat split]].
  - unfold balance. simpl. by rewrite lookup_insert_eq.
  - intros t Hne. unfold balance. simpl. by rewrite lookup_insert_ne.
Qed.

(** X9.  When the strategy holds at least [amount] of the base asset,
    freeFunds(amount) called by the vault pays exactly [amount]: the base
    balance drops by [amount], no other balance moves, the exchange is not
    called and the storage is untouched, whatever else the strategy holds
    and whatever the prices are. *)
Theorem freeFunds_liquid (R : Router) (amount : Z) (s : State) :
  0 < amount → amount ≤ balance s (asset s) →
  ∃ s', freeFunds R (vault s) amount s = Ok s' ∧
        balance s' (asset s) = balance s (asset s) - amount ∧
        (∀ t, t ≠ asset s → balance s' t = balance s t) ∧
        swapCalls s' = swapCalls s ∧ same_storage s s'.
Proof.
  intros Hpos Hle. unfold freeFunds, onlyVault.
  rewrite !require_true by done. simpl.
  rewrite (decide_False (P := balance s (asset s) < amount)) by lia. simpl.
  rewrite (decide_False (P := balance s (asset s) < amount)) by lia.
  rewrite (decide_True (P := 0 < amount)) by done.
  destruct (transferOut amount s) as [s'|e] eqn:E.
  - exists s'. split; [done|]. by apply transferOut_effect in E as (_ & ? & ? & ? & ?).
  - unfold transferOut in E. rewrite decide_True in E by done. discriminate.
Qed.

(** X9, witness: 100 of base asset held, 40 requested. *)
Lemma freeFunds_liquid_witness :
  ∃ s', freeFunds Ex.parRouter Ex.VAULT 40 Ex.stranded = Ok s' ∧
        balance s' Ex.USDT = 60 ∧ balance s' Ex.A = 5.
Proof.
  destruct (freeFunds_liquid Ex.parRouter 40 Ex.stranded)
    as (s' & H & Hb & Hother & _).
  - lia.
  - vm_compute. congruence.
  - exists s'. split; [exact H|]. split; [exact Hb|].
    apply (Hother Ex.A). vm_compute. discriminate.
Defined.

(** X10.  Whenever freeFunds(amount) returns, the caller was the vault and
    [amount] was nonzero; the strategy first liquidated for the shortfall
    if its base balance was below [amount], and then paid the smaller of
    [amount] and what base asset it ended up with: exactly [amount] when
    that suffices, otherwise everything it has.  No other balance is
    touched by the payout. *)
Theorem freeFunds_payout (R : Router) (caller : address) (amount : Z)
  (s s' : State) :
  freeFunds R caller amount s = Ok s' →
  caller = vault s ∧ 0 < amount ∧
  ∃ s1,
    (if decide (balance s (asset s) < amount)
     then _liquidateForWithdrawal R (amount - balance s (asset s)) s = Ok s1
     else s1 = s) ∧
    same_storage s s' ∧ swapCalls s' = swapCalls s1 ∧
    (∀ t, t ≠ asset s → balance s' t = balance s1 t) ∧
    (amount ≤ balance s1 (asset s) →
       balance s' (asset s) = balance s1 (asset s) - amount) ∧
    (0 ≤ balance s1 (asset s) < amount → balance s' (asset s) = 0).
Proof.
  intros H. pose proof (freeFunds_storage R caller amount s s' H) as Hst.
  unfold freeFunds in H.
  apply bind_Ok in H as (_ & Hc%require_inv & H).
  apply bind_Ok in H as (_ & Ha%require_inv & H).
  apply bind_Ok in H as (s1 & H1 & H).
  split; [done|]. split; [done|]. exists s1.
  assert (Has : asset s1 = asset s ∧
    if decide (balance s (asset s) < amount)
    then _liquidateForWithdrawal R (amount - balance s (asset s)) s = Ok s1
    else s1 = s).
  { destruct (decide (balance s (asset s) < amount)).
    - apply bind_Ok in H1 as (d & Hd & H1).
      unfold checked_sub in Hd. rewrite decide_True in Hd by lia.
      injection Hd as <-. split; [|done].
      by apply liquidateForWithdrawal_issues in H1 as [(_&_&_&?&_) _].
    - by injection H1 as <-. }
  destruct Has as [Has Hliq]. rewrite Has in H.
  split; [exact Hliq|]. split; [exact Hst|].
  set (avail := balance s1 (asset s)) in *.
  destruct (decide (avail < amount)) as [Hshort|Hfull].
  - destruct (decide (0 < avail)).
    + apply transferOut_effect in H as (_ & Hb & Ho & Hc' & _).
      rewrite Has in Hb, Ho. fold avail in Hb.
      split; [done|]. split; [done|]. split; intros; lia.
    + injection H as <-. fold avail.
      split; [done|]. split; [done|]. split; intros; lia.
  - rewrite decide_True in H by lia.
    apply transferOut_effect in H as (_ & Hb & Ho & Hc' & _).
    rewrite Has in Hb, Ho. fold avail in Hb.
    split; [done|]. split; [done|]. split; intros; lia.
Qed.

(** X10, witness: 100 held, 250 requested, nothing listed to liquidate:
    the 100 are paid. *)
Lemma freeFunds_payout_witness :
  ∃ s', freeFunds Ex.parRouter Ex.VAULT 250 Ex.stranded = Ok s' ∧
        balance s' Ex.USDT = 0.
Proof.
  assert (E : ∃ s', freeFunds Ex.parRouter Ex.VAULT 250 Ex.stranded = Ok s')
    by (eexists; vm_compute; reflexivity).
  destruct E as [s' E]. exists s'. split; [exact E|].
  destruct (freeFunds_payout _ _ _ _ _ E) as (_ & _ & s1 & Hliq & _ & _ & _ & _ & H).
  vm_compute in Hliq. injection Hliq as <-.
  apply H. vm_compute. split; congruence.
Defined.

Lemma getTokenValue_ext s1 s2 tok amount :
  asset s1 = asset s2 → priceFeeds s1 = priceFeeds s2 →
  feeds (env s1) = feeds (env s2) → decimals (env s1) = decimals (env s2) →
  _getTokenValueInAsset s1 tok amount = _getTokenValueInAsset s2 tok amount.
Proof.
  intros Ha Hp Hf Hd. unfold _getTokenValueInAsset, priceFeed, callFeed.
  by rewrite Ha, Hp, Hf, Hd.
Qed.

(** totalAssets looks at the base balance and at the balances of the listed
    tokens, and at nothing else the strategy holds. *)
Lemma totalAssets_ext s1 s2 :
  asset s1 = asset s2 → allocations s1 = allocations s2 →
  priceFeeds s1 = priceFeeds s2 →
  feeds (env s1) = feeds (env s2) → decimals (env s1) = decimals (env s2) →
  balance s1 (asset s1) = balance s2 (asset s2) →
  (∀ t, t ∈ token <$> allocations s2 → balance s1 t = balance s2 t) →
  totalAssets s1 = totalAssets s2.
Proof.
  intros Ha Hl Hp Hf Hd Hb Hbal. unfold totalAssets. rewrite Hb, Hl.
  generalize (balance s2 (asset s2)).
  revert Hbal. clear Hl Hb.
  induction (allocations s2) as [|a rest IH]; intros Hbal acc; [done|].
  cbn [totalAssets_loop].
  rewrite Ha, (Hbal (token a)) by (rewrite fmap_cons; apply list_elem_of_here).
  rewrite (getTokenValue_ext s1 s2) by done.
  assert (Hrest : ∀ t, t ∈ token <$> rest → balance s1 t = balance s2 t).
  { intros t Ht. apply Hbal. rewrite fmap_cons. by apply list_elem_of_further. }
  destruct (decide (token a ≠ asset s2)); [|by apply IH].
  destruct (decide (0 < balance s2 (token a))); [|by apply IH].
  destruct (_getTokenValueInAsset s2 _ _) as [v|e]; [|done]. simpl.
  destruct (checked_add acc v); [|done]. simpl. by apply IH.
Qed.

(** X11.  Whenever emergencyWithdraw(token) returns, the caller was the
    owner and the strategy's whole balance of that token is gone, the base
    asset included, and nothing else: the other balances, the storage and
    the call log are as before.  Sweeping a token that is neither listed nor
    the base asset does not change what totalAssets reports. *)
Theorem emergencyWithdraw_sweeps (caller tok : address) (s s' : State) :
  emergencyWithdraw caller tok s = Ok s' → 0 ≤ balance s tok →
  caller = owner s ∧
  balance s' tok = 0 ∧
  (∀ t, t ≠ tok → balance s' t = balance s t) ∧
  same_storage s s' ∧ swapCalls s' = swapCalls s ∧
  (tok ≠ asset s → tok ∉ token <$> allocations s →
   totalAssets s' = totalAssets s).
Proof.
  unfold emergencyWithdraw, onlyOwner. intros H Hnn.
  destruct (decide (caller = owner s)) as [Hown|]; [|discriminate].
  split; [exact Hown|]. simpl in H.
  destruct (decide (0 < balance s tok)) as [Hpos|Hzero]; injection H as <-.
  - assert (Hother : ∀ t, t ≠ tok →
      balance (set_env (mkEnv (<[tok:=balance s tok - balance s tok]>
                                 (balanceOf (env s)))
                              (allowance (env s)) (feeds (env s))
                              (decimals (env s))) s) t = balance s t).
    { intros t Hne. unfold balance. simpl. by rewrite lookup_insert_ne. }
    split; [unfold balance; simpl; rewrite lookup_insert_eq; simpl; lia|].
    split; [exact Hother|]. split; [by repeat split|]. split; [done|].
    intros Hna Hnl. apply totalAssets_ext; try done.
    + simpl. apply Hother. congruence.
    + intros t Ht. apply Hother. intros ->. contradiction.
  - split; [lia|]. split; [done|].
    split; [apply same_storage_refl|]. done.
Qed.

(** X11, witness: the owner sweeps the 5 stranded A. *)
Lemma emergencyWithdraw_sweeps_witness :
  ∃ s', emergencyWithdraw Ex.OWNER Ex.A Ex.stranded = Ok s' ∧
        balance s' Ex.A = 0 ∧ balance s' Ex.USDT = 100 ∧
        totalAssets s' = Ok 100.
Proof.
  assert (E : ∃ s', emergencyWithdraw Ex.OWNER Ex.A Ex.stranded = Ok s')
    by (eexists; vm_compute; reflexivity).
  destruct E as [s' E]. exists s'. split; [exact E|].
  destruct (emergencyWithdraw_sweeps Ex.OWNER Ex.A Ex.stranded s' E)
    as (_ & Hz & Hother & _ & _ & Htv).
  - vm_compute. congruence.
  - split; [exact Hz|].
    split; [apply (Hother Ex.USDT); vm_compute; discriminate|].
    rewrite Htv; [vm_compute; reflexivity | vm_compute; discriminate |].
    intros Hin. by apply elem_of_nil in Hin.
Defined.

(** ** Allow-list and feed bindings *)

Lemma elem_of_allowed_add (t tok : address) (X : gset address) :
  t ≠ tok → t ∈ {[tok]} ∪ X ↔ t ∈ X.
Proof. rewrite elem_of_union, elem_of_singleton. tauto. Qed.

Lemma elem_of_allowed_remove (t tok : address) (X : gset address) :
  t ≠ tok → t ∈ X ∖ {[tok]} ↔ t ∈ X.
Proof. rewrite elem_of_difference, elem_of_singleton. tauto. Qed.

Lemma not_elem_of_allowed_remove (tok : address) (X : gset address) :
  tok ∉ X ∖ {[tok]}.
Proof. rewrite elem_of_difference, elem_of_singleton. tauto. Qed.

Lemma setAllocations_loop_rejects_disallowed l : ∀ s acc a,
  a ∈ l → token a ∉ allowedTokens s →
  ∃ e, setAllocations_loop l s acc = Revert e.
Proof.
  induction l as [|x rest IH]; intros s acc a Hin Hna;
    [by apply elem_of_nil in Hin|].
  cbn [setAllocations_loop].
  destruct (require (token x ≠ 0) _) as [|e1]; [|by exists e1]. simpl.
  apply elem_of_cons in Hin as [->|Hin].
  { rewrite (require_false (token x ∈ allowedTokens s) _ Hna). simpl. eauto. }
  destruct (require (token x ∈ allowedTokens s) _) as [|e2]; [|by exists e2]. simpl.
  destruct (require (0 < percentage x) _) as [|e3]; [|by exists e3]. simpl.
  destruct (require (priceFeed s (token x) ≠ 0) _) as [|e4]; [|by exists e4]. simpl.
  destruct (checked_add acc (percentage x)) as [acc'|e5]; [|by exists e5]. simpl.
  by apply (IH _ _ a).
Qed.

(** X12.  The allow-list behaves as a set under the owner's two functions:
    allowToken puts a nonzero token on it and disallowToken takes any token
    but the base asset off it, without touching other tokens; disallowing
    the base asset always reverts.  Disallowing does not delist: the Target
    Portfolio is unchanged, but from then on every setAllocations whose list
    names the token reverts. *)
Theorem allow_list_updates (R : Router) (tok : address) (s : State) :
  (tok ≠ 0 →
   ∃ s', allowToken (owner s) tok s = Ok s' ∧ isTokenAllowed s' tok = true ∧
         (∀ t, t ≠ tok → isTokenAllowed s' t = isTokenAllowed s t)) ∧
  (tok ≠ asset s →
   ∃ s', disallowToken (owner s) tok s = Ok s' ∧
         isTokenAllowed s' tok = false ∧
         (∀ t, t ≠ tok → isTokenAllowed s' t = isTokenAllowed s t) ∧
         allocations s' = allocations s ∧
         ∀ l a, a ∈ l → token a = tok →
                ∃ e, setAllocations R (owner s') l s' = Revert e) ∧
  disallowToken (owner s) (asset s) s
  = Revert (RequireFailed "AIBasketStrategy: cannot disallow base asset").
Proof.
  unfold allowToken, disallowToken, onlyOwner, isTokenAllowed.
  rewrite !(decide_True (P := owner s = owner s)) by done. simpl. repeat split.
  - intros Hnz. rewrite require_true by done. simpl.
    eexists. split; [reflexivity|]. simpl. split.
    + apply bool_decide_eq_true. apply elem_of_union_l. by apply elem_of_singleton.
    + intros t Hne. apply bool_decide_ext. by apply elem_of_allowed_add.
  - intros Hna. rewrite require_true by done. simpl.
    eexists. split; [reflexivity|]. simpl. split; [|split; [|split; [done|]]].
    + apply bool_decide_eq_false. apply not_elem_of_allowed_remove.
    + intros t Hne. apply bool_decide_ext. by apply elem_of_allowed_remove.
    + intros l a Hin Ha. unfold setAllocations, onlyOwner. simpl.
      rewrite decide_True by done. simpl.
      destruct (require _ _) as [|e0]; [|by exists e0]. simpl.
      destruct (setAllocations_loop_rejects_disallowed l
                  (set_allocations []
                     (mkState (owner s) (vault s) (router s) (asset s) (weth s)
                        (allocations s) (allowedTokens s ∖ {[tok]})
                        (priceFeeds s) (env s) (swapCalls s))) 0 a Hin)
        as [e He].
      { simpl. rewrite Ha. apply not_elem_of_allowed_remove. }
      rewrite He. by exists e.
  - by rewrite require_false by (intros H; by apply H).
Qed.

(** X12, witness: B is taken off the list and can no longer be listed. *)
Lemma allow_list_updates_witness :
  ∃ s', disallowToken Ex.OWNER Ex.B Ex.balanced = Ok s' ∧
        isTokenAllowed s' Ex.B = false ∧
        allocations s' = allocations Ex.balanced ∧
        ∃ e, setAllocations Ex.parRouter Ex.OWNER [mkAllocation Ex.B 4000] s'
             = Revert e.
Proof.
  destruct (allow_list_updates Ex.parRouter Ex.B Ex.balanced) as (_ & H & _).
  destruct H as (s' & H1 & H2 & _ & H3 & H4).
  - vm_compute. discriminate.
  - exists s'. split; [exact H1|]. split; [exact H2|]. split; [exact H3|].
    assert (Ho : owner s' = Ex.OWNER).
    { vm_compute in H1. injection H1 as <-. reflexivity. }
    rewrite <- Ho.
    apply (H4 [mkAllocation Ex.B 4000] (mkAllocation Ex.B 4000));
      [apply list_elem_of_here | reflexivity].
Defined.

Lemma execute_priceFeeds R caller c s s' :
  execute R caller c s = Ok s' →
  priceFeeds s' = priceFeeds s ∨
  ∃ tok feed, feed ≠ 0 ∧ priceFeeds s' = <[tok := feed]> (priceFeeds s).
Proof.
  intros H. destruct c; simpl in H.
  - left. unfold invest in H. apply bind_Ok in H as (_ & _ & H).
    apply bind_Ok in H as (_ & _ & H).
    destruct (decide _) in H; [|by injection H as <-].
    by apply rebalancePortfolio_issues in H as [(_&_&_&_&_&_&_&?) _].
  - left. by apply freeFunds_storage in H as (_&_&_&_&_&_&_&?).
  - left. by apply setAllocations_ok in H as (_&_&_&_&(_&_&_&_&_&_&_&?)).
  - left. unfold allowToken in H. apply bind_Ok in H as (_ & _ & H).
    apply bind_Ok in H as (_ & _ & H). by injection H as <-.
  - left. unfold disallowToken in H. apply bind_Ok in H as (_ & _ & H).
    apply bind_Ok in H as (_ & _ & H). by injection H as <-.
  - right. unfold setPriceFeed in H. apply bind_Ok in H as (_ & _ & H).
    apply bind_Ok in H as (_ & _ & H).
    apply bind_Ok in H as (_ & Hf%require_inv & H). injection H as <-.
    by exists tok, feed.
  - left. unfold setVault in H. apply bind_Ok in H as (_ & _ & H).
    apply bind_Ok in H as (_ & _ & H). by injection H as <-.
  - left. unfold setRouter in H. apply bind_Ok in H as (_ & _ & H).
    apply bind_Ok in H as (_ & _ & H). by injection H as <-.
  - left. unfold emergencyExitAllPositions in H.
    apply bind_Ok in H as (_ & _ & H). apply bind_Ok in H as (s1 & H1 & H).
    injection H as <-.
    by apply emergencyExit_loop_issues in H1 as [(_&_&_&_&_&_&_&?) _].
  - left. unfold emergencyWithdraw in H. apply bind_Ok in H as (_ & _ & H).
    destruct (decide _) in H; by injection H as <-.
Qed.

(** X13.  A price feed binding can be replaced but never removed.
    setPriceFeed by the owner binds a nonzero token to a nonzero feed and
    leaves every other binding alone; a zero feed is refused; and no call
    to any function, by anyone, turns a bound token into an unbound one. *)
Theorem feed_binding_permanent (R : Router) (tok feed : address) (s : State) :
  (tok ≠ 0 → feed ≠ 0 →
   ∃ s', setPriceFeed (owner s) tok feed s = Ok s' ∧
         priceFeed s' tok = feed ∧
         (∀ t, t ≠ tok → priceFeed s' t = priceFeed s t)) ∧
  (tok ≠ 0 →
   setPriceFeed (owner s) tok 0 s
   = Revert (RequireFailed "AIBasketStrategy: zero feed")) ∧
  (∀ caller c t, priceFeed s t ≠ 0 →
                 priceFeed (transact (execute R caller c) s) t ≠ 0).
Proof.
  repeat split.
  - intros Ht Hf. unfold setPriceFeed, onlyOwner.
    rewrite (decide_True (P := owner s = owner s)) by done. simpl.
    rewrite !require_true by done. simpl.
    eexists. split; [reflexivity|]. unfold priceFeed. simpl. split.
    + by rewrite lookup_insert_eq.
    + intros t Hne. by rewrite lookup_insert_ne.
  - intros Ht. unfold setPriceFeed, onlyOwner.
    rewrite (decide_True (P := owner s = owner s)) by done. simpl.
    rewrite require_true by done. reflexivity.
  - intros caller c t Hbound. unfold transact.
    destruct (execute R caller c s) as [s'|] eqn:E; [|done].
    destruct (execute_priceFeeds R caller c s s' E) as [Heq|(k & f & Hf & Heq)];
      unfold priceFeed in *; rewrite Heq; [done|].
    destruct (decide (k = t)) as [->|Hne].
    + by rewrite lookup_insert_eq.
    + by rewrite lookup_insert_ne.
Qed.

(** X13, witness: rebinding A's feed on the balanced portfolio. *)
Lemma feed_binding_permanent_witness :
  ∃ s', setPriceFeed Ex.OWNER Ex.A 777 Ex.balanced = Ok s' ∧
        priceFeed s' Ex.A = 777 ∧ priceFeed s' Ex.B = priceFeed Ex.balanced Ex.B.
Proof.
  destruct (feed_binding_permanent Ex.parRouter Ex.A 777 Ex.balanced)
    as (H & _ & _).
  destruct H as (s' & H1 & H2 & H3).
  - vm_compute. discriminate.
  - lia.
  - exists s'. split; [exact H1|]. split; [exact H2|].
    apply H3. vm_compute. discriminate.
Defined.

(** ** More on the two conversions *)

Lemma callFeed_inv s f fd : callFeed s f = Ok fd → feeds (env s) !! f = Some fd.
Proof. unfold callFeed. destruct (feeds (env s) !! f); congruence. Qed.

Lemma checked_div_inv a b q : checked_div a b = Ok q → b ≠ 0 ∧ q = a / b.
Proof. unfold checked_div. case_decide; [discriminate|]. by intros [= <-]. Qed.

Lemma scale_inv amount pNum pDen exp v :
  0 < pDen →
  (if decide (0 ≤ exp) then
     x ← checked_mul amount pNum;
     p ← checked_pow 10 exp;
     y ← checked_mul x p;
     checked_div y pDen
   else
     x ← checked_mul amount pNum;
     p ← checked_pow 10 (- exp);
     d ← checked_mul pDen p;
     checked_div x d) = Ok v →
  v = amount * (pNum * 10 ^ Z.max 0 exp) / (pDen * 10 ^ Z.max 0 (- exp)).
Proof.
  intros Hd H. destruct (decide (0 ≤ exp)).
  - apply bind_Ok in H as (x & ->%checked_mul_inv & H).
    apply bind_Ok in H as (p & ->%checked_pow_inv & H).
    apply bind_Ok in H as (y & ->%checked_mul_inv & H).
    apply checked_div_inv in H as [_ ->].
    rewrite Z.max_r, (Z.max_l 0 (- exp)) by lia.
    f_equal; lia.
  - apply bind_Ok in H as (x & ->%checked_mul_inv & H).
    apply bind_Ok in H as (p & ->%checked_pow_inv & H).
    apply bind_Ok in H as (d & ->%checked_mul_inv & H).
    apply checked_div_inv in H as [_ ->].
    rewrite Z.max_l, (Z.max_r 0 (- exp)) by lia.
    f_equal; lia.
Qed.

(** Whenever valueOf answers for a non-base token and a nonzero amount, both
    feeds are bound and valid and the answer is the closed form. *)
Lemma getTokenValue_inv s tok amount v :
  _getTokenValueInAsset s tok amount = Ok v → tok ≠ asset s → amount ≠ 0 →
  ∃ tf af, bound_feeds s tok tf af ∧ 0 < answer tf ∧ 0 < answer af ∧
           feedDecimals tf = feedDecimals af ∧
           v = amount * conv_num s (answer tf) tok / conv_den s (answer af) tok.
Proof.
  unfold _getTokenValueInAsset. intros H Hne Hnz.
  rewrite decide_False in H by done. rewrite decide_False in H by done.
  apply bind_Ok in H as (_ & H1%require_inv & H).
  apply bind_Ok in H as (_ & H2%require_inv & H).
  apply bind_Ok in H as (tf & Htf%callFeed_inv & H).
  apply bind_Ok in H as (af & Haf%callFeed_inv & H).
  apply bind_Ok in H as (_ & [Hpt Hpa]%require_inv & H).
  apply bind_Ok in H as (_ & Hdec%require_inv & H).
  exists tf, af. split; [by repeat split|]. do 3 (split; [done|]).
  apply scale_inv in H; [|done]. unfold conv_num, conv_den.
  replace (decimals (env s) tok - decimals (env s) (asset s))
    with (- (decimals (env s) (asset s) - decimals (env s) tok)) by lia.
  exact H.
Qed.

Lemma convertAssetValue_inv s tok value a :
  _convertAssetValueToTokenAmount s tok value = Ok a → tok ≠ asset s →
  value ≠ 0 →
  ∃ tf af, bound_feeds s tok tf af ∧ 0 < answer tf ∧ 0 < answer af ∧
           feedDecimals tf = feedDecimals af ∧
           a = value * conv_den s (answer af) tok / conv_num s (answer tf) tok.
Proof.
  unfold _convertAssetValueToTokenAmount. intros H Hne Hnz.
  rewrite decide_False in H by done. rewrite decide_False in H by done.
  apply bind_Ok in H as (_ & H1%require_inv & H).
  apply bind_Ok in H as (_ & H2%require_inv & H).
  apply bind_Ok in H as (tf & Htf%callFeed_inv & H).
  apply bind_Ok in H as (af & Haf%callFeed_inv & H).
  apply bind_Ok in H as (_ & [Hpt Hpa]%require_inv & H).
  apply bind_Ok in H as (_ & Hdec%require_inv & H).
  exists tf, af. split; [by repeat split|]. do 3 (split; [done|]).
  apply scale_inv in H; [|done]. unfold conv_num, conv_den.
  replace (decimals (env s) (asset s) - decimals (env s) tok)
    with (- (decimals (env s) tok - decimals (env s) (asset s))) by lia.
  exact H.
Qed.

Lemma bound_feeds_unique s tok tf af tf' af' :
  bound_feeds s tok tf af → bound_feeds s tok tf' af' → tf = tf' ∧ af = af'.
Proof. intros (_&_&_&H1&H2) (_&_&_&H1'&H2'). split; congruence. Qed.

Lemma convertAssetValue_nonneg s tok value a :
  _convertAssetValueToTokenAmount s tok value = Ok a → 0 ≤ value → 0 ≤ a.
Proof.
  intros H Hv.
  destruct (decide (tok = asset s)) as [->|Hne].
  { rewrite convert_base_asset in H. injection H as <-. done. }
  destruct (decide (value = 0)) as [->|Hnz].
  { unfold _convertAssetValueToTokenAmount in H.
    rewrite decide_False, decide_True in H by done. injection H as <-. done. }
  apply convertAssetValue_inv in H as (tf & af & _ & Hpt & Hpa & _ & ->);
    try done.
  pose proof (conv_num_pos s _ tok Hpt). pose proof (conv_den_pos s _ tok Hpa).
  apply Z.div_pos; nia.
Qed.

(** X14.  Both conversions are monotone: whenever valueOf (or amountOf)
    answers for two amounts of the same token in the same state, the larger
    amount never gets the smaller answer. *)
Theorem conversions_monotone (s : State) (tok : address) (a b : Z) :
  0 ≤ a → a ≤ b →
  (∀ va vb, _getTokenValueInAsset s tok a = Ok va →
            _getTokenValueInAsset s tok b = Ok vb → va ≤ vb) ∧
  (∀ ta tb, _convertAssetValueToTokenAmount s tok a = Ok ta →
            _convertAssetValueToTokenAmount s tok b = Ok tb → ta ≤ tb).
Proof.
  intros Ha Hab. split.
  - intros va vb Hva Hvb.
    destruct (decide (tok = asset s)) as [->|Hne].
    { unfold _getTokenValueInAsset in *. rewrite decide_True in * by done.
      injection Hva as <-. injection Hvb as <-. done. }
    destruct (decide (a = 0)) as [->|Hnz].
    { rewrite getTokenValue_zero in Hva. injection Hva as <-.
      by eapply getTokenValue_nonneg. }
    apply getTokenValue_inv in Hva as (tf & af & Hb & Hpt & Hpa & _ & ->);
      try done.
    apply getTokenValue_inv in Hvb as (tf' & af' & Hb' & _ & _ & _ & ->);
      try done; [|lia].
    destruct (bound_feeds_unique _ _ _ _ _ _ Hb Hb') as [<- <-].
    pose proof (conv_num_pos s _ tok Hpt). pose proof (conv_den_pos s _ tok Hpa).
    apply Z.div_le_mono; [lia | nia].
  - intros ta tb Hta Htb.
    destruct (decide (tok = asset s)) as [->|Hne].
    { rewrite convert_base_asset in Hta, Htb.
      injection Hta as <-. injection Htb as <-. done. }
    destruct (decide (a = 0)) as [->|Hnz].
    { unfold _convertAssetValueToTokenAmount in Hta.
      rewrite decide_False, decide_True in Hta by done. injection Hta as <-.
      eapply convertAssetValue_nonneg; [exact Htb | lia]. }
    apply convertAssetValue_inv in Hta as (tf & af & Hb & Hpt & Hpa & _ & ->);
      try done.
    apply convertAssetValue_inv in Htb as (tf' & af' & Hb' & _ & _ & _ & ->);
      try done; [|lia].
    destruct (bound_feeds_unique _ _ _ _ _ _ Hb Hb') as [<- <-].
    pose proof (conv_num_pos s _ tok Hpt). pose proof (conv_den_pos s _ tok Hpa).
    apply Z.div_le_mono; [lia | nia].
Qed.

(** X14, witness: 450 and 550 of A at par. *)
Lemma conversions_monotone_witness :
  ∃ va vb, _getTokenValueInAsset Ex.skewed Ex.A 450 = Ok va ∧
           _getTokenValueInAsset Ex.skewed Ex.A 550 = Ok vb ∧ va ≤ vb.
Proof.
  exists 450, 550.
  destruct (conversions_monotone Ex.skewed Ex.A 450 550) as [H _]; [lia | lia |].
  assert (H1 : _getTokenValueInAsset Ex.skewed Ex.A 450 = Ok 450)
    by (vm_compute; reflexivity).
  assert (H2 : _getTokenValueInAsset Ex.skewed Ex.A 550 = Ok 550)
    by (vm_compute; reflexivity).
  split; [exact H1|]. split; [exact H2|]. exact (H 450 550 H1 H2).
Defined.

(** Converting no more than a holding's value back into tokens never gives
    more tokens than the holding. *)
Lemma convert_back_le s tok bal v v' amt :
  0 ≤ bal → _getTokenValueInAsset s tok bal = Ok v →
  0 ≤ v' → v' ≤ v →
  _convertAssetValueToTokenAmount s tok v' = Ok amt → amt ≤ bal.
Proof.
  intros Hbal Hv Hv' Hle Hamt.
  destruct (decide (tok = asset s)) as [->|Hne].
  { rewrite convert_base_asset in Hamt. injection Hamt as <-.
    unfold _getTokenValueInAsset in Hv. rewrite decide_True in Hv by done.
    injection Hv as <-. done. }
  destruct (decide (v' = 0)) as [->|Hnz].
  { unfold _convertAssetValueToTokenAmount in Hamt.
    rewrite decide_False, decide_True in Hamt by done. by injection Hamt as <-. }
  destruct (decide (bal = 0)) as [->|Hbnz].
  { rewrite getTokenValue_zero in Hv. injection Hv as <-. lia. }
  apply getTokenValue_inv in Hv as (tf & af & Hb & Hpt & Hpa & _ & ->); try done.
  apply convertAssetValue_inv in Hamt as (tf' & af' & Hb' & _ & _ & _ & ->);
    try done.
  destruct (bound_feeds_unique _ _ _ _ _ _ Hb Hb') as [<- <-].
  pose proof (conv_num_pos s _ tok Hpt) as HN.
  pose proof (conv_den_pos s _ tok Hpa) as HD.
  set (N := conv_num s (answer tf) tok) in *.
  set (D := conv_den s (answer af) tok) in *.
  pose proof (Z.mul_div_le (bal * N) D HD).
  apply Z.div_le_upper_bound; [done|]. nia.
Qed.

(** X15.  The cap at the Holding never binds.  Where a liquidation step
    (needed amount at most Total Value) or a rebalance step (non-negative
    Total Value and weight) sells, the amountOf-converted amount is already
    at most the Holding, so each step behaves exactly as it would with the
    cap removed. *)
Theorem holding_cap_never_binds (R : Router) (a : TokenAllocation) (s : State) :
  0 ≤ balance s (token a) →
  (∀ n tv, 0 < tv → 0 ≤ n → n ≤ tv →
     liquidate_step R n tv a s = liquidate_step_uncapped R n tv a s) ∧
  (∀ tv, 0 ≤ tv → 0 ≤ percentage a →
     rebalance_step R tv a s = rebalance_step_uncapped R tv a s).
Proof.
  intros Hbal. split.
  - intros n tv Htv Hn Hle. unfold liquidate_step, liquidate_step_uncapped.
    destruct (decide (token a = asset s)); [done|].
    destruct (decide (balance s (token a) = 0)); [done|].
    destruct (_getTokenValueInAsset s (token a) (balance s (token a)))
      as [v|] eqn:Ev; [|done]. simpl.
    destruct (checked_mul v n) as [x|] eqn:Ex; [|done]. simpl.
    apply checked_mul_inv in Ex as ->.
    rewrite checked_div_ok by lia. simpl.
    destruct (decide (0 < v * n / tv)) as [Hlv|]; [|done].
    destruct (_convertAssetValueToTokenAmount s (token a) (v * n / tv))
      as [amt|] eqn:Ea; [|done]. simpl.
    rewrite decide_False; [done|].
    assert (0 ≤ v) by (by eapply getTokenValue_nonneg).
    assert (v * n / tv ≤ v) by (apply Z.div_le_upper_bound; nia).
    assert (amt ≤ balance s (token a))
      by (eapply (convert_back_le s (token a) _ v (v * n / tv));
          [exact Hbal | exact Ev | lia | done | exact Ea]).
    lia.
  - intros tv Htv Hpct. unfold rebalance_step, rebalance_step_uncapped.
    destruct (decide (token a ≠ asset s)) as [Hne|Heq]; [|reflexivity].
    destruct (checked_mul tv (percentage a)) as [x|] eqn:Ex; [|done]. simpl.
    apply checked_mul_inv in Ex as ->.
    assert (0 ≤ tv * percentage a / 10000) as Htgt by (apply Z.div_pos; nia).
    assert (0 ≤ tv / 100) as Hthr by (apply Z.div_pos; lia).
    unfold MAX_BPS in *.
    set (target := tv * percentage a / 10000) in *.
    rewrite (decide_False (P := token a = asset s)) by done.
    destruct (decide (0 < balance s (token a))) as [Hpos|Hnone].
    + destruct (_getTokenValueInAsset s (token a) (balance s (token a)))
        as [cur|] eqn:Ev; [|done]. simpl.
      destruct (checked_add cur (tv / 100)) as [lhs|]; [|done]. simpl.
      destruct (decide (lhs < target)); [done|].
      destruct (checked_add target (tv / 100)) as [rhs|] eqn:Er; [|done]. simpl.
      apply checked_add_inv in Er as ->.
      destruct (decide (target + tv / 100 < cur)) as [Hsell|]; [|done].
      rewrite checked_sub_ok by lia. simpl.
      destruct (_convertAssetValueToTokenAmount s (token a) (cur - target))
        as [amt|] eqn:Ea; [|done]. simpl.
      rewrite decide_False; [done|].
      assert (amt ≤ balance s (token a))
        by (eapply (convert_back_le s (token a) _ cur (cur - target));
            [exact Hbal | exact Ev | lia | lia | exact Ea]).
      lia.
    + simpl. destruct (checked_add 0 (tv / 100)) as [lhs|]; [|done]. simpl.
      destruct (decide (lhs < target)); [done|].
      destruct (checked_add target (tv / 100)) as [rhs|] eqn:Er; [|done]. simpl.
      apply checked_add_inv in Er as ->.
      destruct (decide (target + tv / 100 < 0)); [lia | reflexivity].
Qed.

(** X15, witness: liquidate(50) of Total Value 100 at A. *)
Lemma holding_cap_never_binds_witness :
  liquidate_step Ex.parRouter 50 100 (mkAllocation Ex.A 10000) Ex.unlisted_X
  = liquidate_step_uncapped Ex.parRouter 50 100 (mkAllocation Ex.A 10000)
      Ex.unlisted_X.
Proof.
  destruct (holding_cap_never_binds Ex.parRouter (mkAllocation Ex.A 10000)
              Ex.unlisted_X) as [H _].
  - vm_compute. congruence.
  - apply H; lia.
Defined.

(** ** More on totalAssets *)

Lemma sumZ_app l k : sumZ (l ++ k) = sumZ l + sumZ k.
Proof. unfold sumZ. induction l as [|x l IH]; simpl; lia. Qed.

(** X16.  What totalAssets adds up, in general: the base balance plus, for
    every entry of the Target Portfolio whose token is not the base asset
    and is held, the value of that token's whole Holding, once per entry.
    A token that is not listed is not counted, and listing one more entry
    for a held token adds the value of its Holding once more, whether or
    not the token was listed already.  (Each valuation has to succeed and
    the sum to fit in 256 bits; otherwise the call reverts.) *)
Theorem totalAssets_counts_entries (s : State) :
  (∀ t, t ∈ token <$> allocations s → is_other_holding s t →
        ∃ v, _getTokenValueInAsset s t (balance s t) = Ok v) →
  balance s (asset s)
    + sumZ (holdingValue s <$>
              filter (is_other_holding s) (token <$> allocations s))
    ≤ MAX_UINT256 →
  totalAssets s
  = Ok (balance s (asset s)
        + sumZ (holdingValue s <$>
                  filter (is_other_holding s) (token <$> allocations s))) ∧
  (∀ a v tv, totalAssets s = Ok tv →
     is_other_holding s (token a) →
     _getTokenValueInAsset s (token a) (balance s (token a)) = Ok v →
     tv + v ≤ MAX_UINT256 →
     totalAssets (set_allocations (allocations s ++ [a]) s) = Ok (tv + v)).
Proof.
  intros Hval Hfit.
  assert (H : totalAssets s
    = Ok (balance s (asset s)
          + sumZ (holdingValue s <$>
                    filter (is_other_holding s) (token <$> allocations s))))
    by (by apply totalAssets_loop_closed_form).
  split; [exact H|].
  intros a v tv Htv Hh Hv Hfit'. rewrite H in Htv. injection Htv as <-.
  assert (Hhv : holdingValue s (token a) = v)
    by (unfold holdingValue; by rewrite Hv).
  assert (Hsum : sumZ (holdingValue s <$>
                         filter (is_other_holding s)
                           (token <$> allocations s ++ [a]))
                 = sumZ (holdingValue s <$>
                           filter (is_other_holding s) (token <$> allocations s))
                   + v).
  { rewrite fmap_app, filter_app, fmap_app, sumZ_app.
    change (token <$> [a]) with [token a].
    rewrite filter_cons_True by done. rewrite filter_nil.
    change (sumZ (holdingValue s <$> [token a]))
      with (holdingValue s (token a) + 0).
    rewrite Hhv. lia. }
  rewrite <- Z.add_assoc, <- Hsum.
  set (s' := set_allocations (allocations s ++ [a]) s).
  assert (Hloop : totalAssets_loop s' (allocations s') (balance s' (asset s'))
    = Ok (balance s' (asset s')
          + sumZ (holdingValue s' <$>
                    filter (is_other_holding s') (token <$> allocations s')))).
  { apply totalAssets_loop_closed_form.
    - intros t Ht Hth. change (allocations s') with (allocations s ++ [a]) in Ht.
      rewrite fmap_app in Ht.
      apply elem_of_app in Ht as [Ht|Ht%list_elem_of_singleton];
        [by apply Hval|].
      subst t. by exists v.
    - change (balance s (asset s)
              + sumZ (holdingValue s <$>
                        filter (is_other_holding s)
                          (token <$> allocations s ++ [a])) ≤ MAX_UINT256).
      rewrite Hsum. lia. }
  exact Hloop.
Qed.

(** X16, witness: A listed twice with 100 held at par and 10 of base asset:
    210, not 110. *)
Lemma totalAssets_counts_entries_witness :
  totalAssets Ex.doubled = Ok 210.
Proof.
  destruct (totalAssets_counts_entries Ex.doubled) as [H _]; [| |rewrite H].
  3: vm_compute; reflexivity.
  - intros t Ht _.
    assert (t = Ex.A) as ->.
    { vm_compute in Ht. apply elem_of_cons in Ht as [->|Ht]; [done|].
      apply elem_of_cons in Ht as [->|Ht]; [done|]. by apply elem_of_nil in Ht. }
    eexists. vm_compute. reflexivity.
  - vm_compute. congruence.
Defined.

Lemma totalAssets_loop_bounds s allocs : ∀ acc tv,
  totalAssets_loop s allocs acc = Ok tv →
  acc ≤ tv ∧
  ∀ a, a ∈ allocs → is_other_holding s (token a) →
       ∃ v, _getTokenValueInAsset s (token a) (balance s (token a)) = Ok v ∧
            0 ≤ v ∧ acc + v ≤ tv.
Proof.
  induction allocs as [|x rest IH]; intros acc tv H.
  - injection H as <-. split; [lia|]. intros a Ha. by apply elem_of_nil in Ha.
  - cbn [totalAssets_loop] in H.
    destruct (decide (token x ≠ asset s)) as [Hne|Heq].
    + destruct (decide (0 < balance s (token x))) as [Hpos|Hnp].
      * apply bind_Ok in H as (v & Hv & H).
        apply bind_Ok in H as (acc' & ->%checked_add_inv & H).
        destruct (IH _ _ H) as [Hge Hall].
        assert (0 ≤ v) by (eapply getTokenValue_nonneg; [exact Hv | lia]).
        split; [lia|]. intros a [->|Ha]%elem_of_cons Hh.
        -- exists v. repeat split; [done | done | lia].
        -- destruct (Hall a Ha Hh) as (w & Hw & Hw0 & Hwle).
           exists w. repeat split; [done | done | lia].
      * destruct (IH _ _ H) as [Hge Hall]. split; [done|].
        intros a [->|Ha]%elem_of_cons Hh; [destruct Hh; contradiction|].
        by apply Hall.
    + destruct (IH _ _ H) as [Hge Hall]. split; [done|].
      intros a [->|Ha]%elem_of_cons Hh; [destruct Hh; contradiction|].
      by apply Hall.
Qed.

(** X17.  Whenever totalAssets answers, the answer is at least the base
    balance, and every allocation's current value (the base balance for the
    base asset, valueOf of the Holding otherwise) is defined, non-negative
    and at most that answer: no listed position is ever worth more than
    Total Value. *)
Theorem totalAssets_dominates (s : State) (tv : Z) :
  totalAssets s = Ok tv → 0 ≤ balance s (asset s) →
  Forall (λ a, 0 ≤ balance s (token a)) (allocations s) →
  balance s (asset s) ≤ tv ∧
  ∀ a, a ∈ allocations s → ∃ cur, currentValueOf s (token a) = Ok cur ∧
                                   0 ≤ cur ∧ cur ≤ tv.
Proof.
  intros H Hbase Hnn. destruct (totalAssets_loop_bounds _ _ _ _ H) as [Hge Hall].
  split; [done|]. intros a Ha. unfold currentValueOf.
  rewrite Forall_forall in Hnn. specialize (Hnn a Ha).
  destruct (decide (token a = asset s)) as [|Hne];
    [exists (balance s (asset s)); split; [done | lia]|].
  destruct (decide (0 < balance s (token a))) as [Hpos|Hnp].
  - destruct (Hall a Ha (conj Hne Hpos)) as (v & Hv & Hv0 & Hle).
    exists v. repeat split; [done | done | lia].
  - replace (balance s (token a)) with 0 by lia.
    exists 0. rewrite getTokenValue_zero. split; [done | lia].
Qed.

(** X17, witness: the balanced portfolio, 595 and 405 within 1000. *)
Lemma totalAssets_dominates_witness :
  ∃ cur, currentValueOf Ex.balanced Ex.A = Ok cur ∧ 0 ≤ cur ∧ cur ≤ 1000.
Proof.
  destruct (totalAssets_dominates Ex.balanced 1000) as [_ H].
  - vm_compute. reflexivity.
  - vm_compute. congruence.
  - repeat constructor; vm_compute; congruence.
  - apply (H (mkAllocation Ex.A 6000)). apply list_elem_of_here.
Defined.

(** ** The emergency exit on a liquid exchange *)

Lemma swapToken_fills R from to amount s :
  fills_orders R (router s) → from ≠ to → 0 < amount →
  amount ≤ balance s from →
  amount * (MAX_BPS - MAX_SLIPPAGE) ≤ MAX_UINT256 →
  ∃ s', _swapToken R from to amount s = Ok s' ∧ same_storage s s' ∧
        balance s' from = balance s from - amount ∧
        ∀ t, t ≠ from → t ≠ to → balance s' t = balance s t.
Proof.
  intros Hfill Hne Hpos Hle Hfit.
  destruct (buildPath_shape s from to Hne) as (Hh & Hl & _).
  destruct (Hfill (env s) amount (_buildPath s from to) from to
              Hh Hl Hne Hpos Hle Hfit)
    as (amounts & expected & Hq & Hlast & Hexp & Hswap).
  rewrite (swapToken_runs R from to amount s amounts expected)
    by (done || lia).
  destruct (Hswap (spec_minOutput expected)) as (e' & He' & Hfrom & Hother).
  unfold forceApprove at 1. simpl. rewrite He'.
  eexists. split; [reflexivity|]. split; [by repeat split|].
  unfold balance. simpl. split; [done|].
  intros t H1 H2. by rewrite Hother.
Qed.

Lemma emergencyExit_loop_sells_all R allocs : ∀ s,
  fills_orders R (router s) →
  (∀ a, a ∈ allocs → token a ≠ asset s →
        0 ≤ balance s (token a) ∧
        balance s (token a) * (MAX_BPS - MAX_SLIPPAGE) ≤ MAX_UINT256) →
  ∃ s', emergencyExit_loop R allocs s = Ok s' ∧ same_storage s s' ∧
        ∀ t, t ≠ asset s →
             (t ∈ token <$> allocs → balance s' t = 0) ∧
             (t ∉ token <$> allocs → balance s' t = balance s t).
Proof.
  induction allocs as [|a rest IH]; intros s Hfill Hhold.
  - exists s. split; [done|]. split; [apply same_storage_refl|].
    intros t _. split; [|done]. intros Hin. by apply elem_of_nil in Hin.
  - cbn [emergencyExit_loop].
    assert (Hrest : ∀ x, x ∈ rest → token x ≠ asset s →
              0 ≤ balance s (token x) ∧
              balance s (token x) * (MAX_BPS - MAX_SLIPPAGE) ≤ MAX_UINT256).
    { intros x Hx. apply Hhold. by apply list_elem_of_further. }
    destruct (decide (token a = asset s)) as [Heq|Hne].
    { destruct (IH s Hfill Hrest) as (s' & H & Hst & Hbal).
      exists s'. split; [done|]. split; [done|]. intros t Ht.
      destruct (Hbal t Ht) as [Hin Hout]. change (token <$> a :: rest) with (token a :: (token <$> rest)). split.
      - intros [->|Hr]%elem_of_cons; [congruence | by apply Hin].
      - intros Hn. apply Hout. intros Hr. apply Hn. by apply list_elem_of_further. }
    destruct (Hhold a (list_elem_of_here _ _) Hne) as [Hnn Hfit].
    destruct (decide (0 < balance s (token a))) as [Hpos|Hzero].
    + destruct (swapToken_fills R (token a) (asset s) (balance s (token a)) s)
        as (s1 & H1 & Hst1 & Hfrom & Hother); try done; try lia.
      rewrite H1. simpl.
      pose proof Hst1 as (_ & _ & Hr1 & Ha1 & _).
      destruct (IH s1) as (s' & H & Hst & Hbal).
      { by rewrite Hr1. }
      { intros x Hx Hxa. rewrite Ha1 in Hxa.
        destruct (decide (token x = token a)) as [->|Hxne].
        - rewrite Hfrom. unfold MAX_BPS, MAX_SLIPPAGE, MAX_UINT256. lia.
        - rewrite Hother by done. by apply Hrest. }
      exists s'. split; [done|]. split; [by eapply same_storage_trans|].
      intros t Ht. rewrite <- Ha1 in Ht.
      destruct (Hbal t Ht) as [Hin Hout]. rewrite Ha1 in Ht.
      change (token <$> a :: rest) with (token a :: (token <$> rest)). split.
      * intros [->|Hr]%elem_of_cons; [|by apply Hin].
        destruct (decide (token a ∈ token <$> rest)); [by apply Hin|].
        rewrite Hout by done. lia.
      * intros Hn. rewrite Hout by (intros Hr; apply Hn; by apply list_elem_of_further).
        apply Hother; [|done]. intros ->. apply Hn. apply list_elem_of_here.
    + destruct (IH s Hfill Hrest) as (s' & H & Hst & Hbal).
      exists s'. split; [done|]. split; [done|]. intros t Ht.
      destruct (Hbal t Ht) as [Hin Hout]. change (token <$> a :: rest) with (token a :: (token <$> rest)). split.
      * intros [->|Hr]%elem_of_cons; [|by apply Hin].
        destruct (decide (token a ∈ token <$> rest)); [by apply Hin|].
        rewrite Hout by done. lia.
      * intros Hn. apply Hout. intros Hr. apply Hn. by apply list_elem_of_further.
Qed.

(** X18.  On an exchange that fills every order the strategy can pay for,
    emergencyExitAllPositions called by the owner returns with an empty
    Target Portfolio and a zero balance of every listed non-base token
    (each Holding below 2^256 / 9500), whether or not a token was listed
    more than once; balances of non-base tokens that were not listed are
    left as they were. *)
Theorem emergencyExit_sells_everything (R : Router) (s : State) :
  fills_orders R (router s) →
  (∀ a, a ∈ allocations s → token a ≠ asset s →
        0 ≤ balance s (token a) ∧
        balance s (token a) * (MAX_BPS - MAX_SLIPPAGE) ≤ MAX_UINT256) →
  ∃ s', emergencyExitAllPositions R (owner s) s = Ok s' ∧
        allocations s' = [] ∧
        (∀ a, a ∈ allocations s → token a ≠ asset s →
              balance s' (token a) = 0) ∧
        (∀ t, t ≠ asset s → t ∉ token <$> allocations s →
              balance s' t = balance s t).
Proof.
  intros Hfill Hhold.
  destruct (emergencyExit_loop_sells_all R (allocations s) s Hfill Hhold)
    as (s1 & H1 & _ & Hbal).
  unfold emergencyExitAllPositions, onlyOwner.
  rewrite decide_True by done. simpl. rewrite H1. simpl.
  eexists. split; [reflexivity|]. split; [done|]. split.
  - intros a Ha Hne. apply (Hbal (token a) Hne). by apply list_elem_of_fmap_2.
  - intros t Hne Hnl. by apply (Hbal t Hne).
Qed.

Lemma parRouter_fills : fills_orders Ex.parRouter Ex.ROUTER.
Proof.
  intros e amount p from to Hh Hl Hne Hpos Hle Hfit.
  exists ((λ _, amount) <$> p), amount. split; [done|].
  split; [by rewrite fmap_last, Hl|]. split; [done|].
  intros m. simpl. rewrite Hh, Hl. rewrite lookup_insert_eq. simpl.
  rewrite decide_True by lia.
  eexists. split; [reflexivity|]. simpl. split.
  - rewrite lookup_insert_ne by done. by rewrite lookup_insert_eq.
  - intros t H1 H2. by rewrite !lookup_insert_ne.
Qed.

(** X18, witness: the skewed portfolio exits A and B at par. *)
Lemma emergencyExit_sells_everything_witness :
  ∃ s', emergencyExitAllPositions Ex.parRouter Ex.OWNER Ex.skewed = Ok s' ∧
        allocations s' = [] ∧ balance s' Ex.A = 0 ∧ balance s' Ex.B = 0.
Proof.
  destruct (emergencyExit_sells_everything Ex.parRouter Ex.skewed)
    as (s' & H & Hnil & Hzero & _).
  - exact parRouter_fills.
  - intros a Ha _.
    apply elem_of_cons in Ha as [->|Ha]; [split; vm_compute; congruence|].
    apply elem_of_cons in Ha as [->|Ha]; [split; vm_compute; congruence|].
    by apply elem_of_nil in Ha.
  - exists s'. split; [exact H|]. split; [exact Hnil|]. split.
    + apply (Hzero (mkAllocation Ex.A 6000));
        [apply list_elem_of_here | vm_compute; discriminate].
    + apply (Hzero (mkAllocation Ex.B 4000));
        [apply list_elem_of_further, list_elem_of_here | vm_compute; discriminate].
Defined.

(** ** SimpleStrategy *)

Lemma simple_transfer_other t to amount s s' u :
  Simple.safeTransfer t to amount s = Ok s' → u ≠ t →
  Simple.s_balance s' u = Simple.s_balance s u ∧
  Simple.s_asset s' = Simple.s_asset s.
Proof.
  unfold Simple.safeTransfer. intros H Hne.
  destruct (decide _) in H; [discriminate|].
  destruct (decide _) in H; injection H as <-; [done|].
  unfold Simple.s_balance. simpl. by rewrite lookup_insert_ne.
Qed.

(** X19.  SimpleStrategy pays in full or not at all, and only freeFunds
    moves the managed asset.  freeFunds(amount) by the vault lowers
    totalAssets by exactly [amount] when that much is held and reverts
    otherwise (it never pays a part, unlike the basket strategy); invest
    changes nothing; sweep refuses the managed asset and, for any other
    token and any recipient, leaves totalAssets as it was. *)
Theorem simple_strategy_accounting (s : Simple.SState) (amount : Z) :
  0 < amount →
  Simple.s_vault s ≠ Simple.s_self s →
  (amount ≤ Simple.totalAssets s →
     ∃ s', Simple.freeFunds (Simple.s_vault s) amount s = Ok s' ∧
           Simple.totalAssets s' = Simple.totalAssets s - amount) ∧
  (Simple.totalAssets s < amount →
     Simple.freeFunds (Simple.s_vault s) amount s = Revert CallFailed) ∧
  Simple.invest (Simple.s_vault s) amount s = Ok s ∧
  (∀ caller to,
     Simple.sweep caller (Simple.s_asset s) to s = Revert Unauthorized ∨
     Simple.sweep caller (Simple.s_asset s) to s
     = Revert (RequireFailed "SimpleStrategy: cannot sweep asset")) ∧
  (∀ caller tok to s', Simple.sweep caller tok to s = Ok s' →
     Simple.totalAssets s' = Simple.totalAssets s).
Proof.
  intros Hpos Hvs.
  unfold Simple.freeFunds, Simple.invest, Simple.onlyVault, Simple.totalAssets.
  rewrite !(require_true (Simple.s_vault s = Simple.s_vault s)) by done. simpl.
  rewrite !(require_true (0 < amount)) by done. simpl.
  split; [|split; [|split; [done|split]]].
  - intros Hle. unfold Simple.safeTransfer.
    rewrite decide_False by lia. rewrite decide_False by done.
    eexists. split; [reflexivity|].
    unfold Simple.s_balance. simpl. by rewrite lookup_insert_eq.
  - intros Hlt. unfold Simple.safeTransfer. by rewrite decide_True.
  - intros caller to. unfold Simple.sweep, Simple.onlyOwner.
    destruct (decide (caller = Simple.s_owner s)); [right|by left].
    simpl. by rewrite require_false by (intros H; by apply H).
  - intros caller tok to s' H. unfold Simple.sweep in H.
    apply bind_Ok in H as (_ & _ & H).
    apply bind_Ok in H as (_ & Hne%require_inv & H).
    destruct (simple_transfer_other _ _ _ _ _ (Simple.s_asset s) H) as [Hb Ha];
      [congruence|].
    by rewrite Ha.
Qed.

(** X19, witness: 100 of base asset held, 30 freed. *)
Lemma simple_strategy_accounting_witness :
  ∃ s', Simple.freeFunds Ex.VAULT 30 Ex.simple = Ok s' ∧
        Simple.totalAssets s' = 70.
Proof.
  destruct (simple_strategy_accounting Ex.simple 30) as (H & _).
  - lia.
  - vm_compute. discriminate.
  - destruct H as (s' & H1 & H2); [vm_compute; congruence|].
    exists s'. split; [exact H1|]. rewrite H2. vm_compute. reflexivity.
Defined.

(** ** The vault's withdrawAll *)

(** X20.  Vault.withdrawAll can never succeed: it is nonReentrant and calls
    redeem, which is nonReentrant too, from inside its own guard.  Whatever
    the vault's state, the caller and the code behind redeem, the call
    reverts: with the reentrancy error whenever the vault is not paused and
    the caller has shares.  depositAll, whose inner deposit carries no
    reentrancy guard, does reach the deposit code. *)
Theorem vault_withdrawAll_always_reverts {T : Type}
  (redeem_body : Z → address → address → Vault.body T Z)
  (deposit_body : Z → address → Vault.body T Z)
  (caller : address) (s : Vault.VState T) :
  (∃ e, Vault.withdrawAll redeem_body caller s = inl e) ∧
  (Vault.entered s = false → Vault.paused s = false →
   0 < default 0 (Vault.shares s !! caller) →
   Vault.withdrawAll redeem_body caller s
   = inl Vault.ReentrancyGuardReentrantCall) ∧
  (Vault.entered s = false → Vault.paused s = false →
   0 < default 0 (Vault.assetBalances s !! caller) →
   Vault.depositAll deposit_body caller s
   = Vault.nonReentrant
       (Vault.discard
          (deposit_body (default 0 (Vault.assetBalances s !! caller)) caller)) s).
Proof.
  unfold Vault.withdrawAll, Vault.depositAll, Vault.nonReentrant,
    Vault.whenNotPaused, Vault.redeem, Vault.deposit, Vault.discard.
  repeat split.
  - destruct (Vault.entered s) eqn:He; [eauto|]. simpl.
    destruct (Vault.paused s) eqn:Hp; [eauto|].
    destruct (decide _); [|eauto].
    unfold Vault.whenNotPaused, Vault.nonReentrant. simpl. rewrite Hp. eauto.
  - intros He Hp Hsh. rewrite He. simpl. rewrite Hp.
    rewrite decide_True by done.
    unfold Vault.whenNotPaused, Vault.nonReentrant. simpl. by rewrite Hp.
  - intros He Hp Hbal. rewrite He. simpl. rewrite Hp.
    rewrite decide_True by done.
    unfold Vault.whenNotPaused. simpl. by rewrite Hp.
Qed.

(** X20, witness: a holder of 10 shares, and a redeem that would pay. *)
Lemma vault_withdrawAll_always_reverts_witness :
  Vault.withdrawAll (λ sh _ _ s, inr (s, sh)) Ex.OWNER Ex.vaultState
  = inl Vault.ReentrancyGuardReentrantCall.
Proof.
  destruct (vault_withdrawAll_always_reverts
              (λ sh _ _ (s : Vault.VState unit), inr (s, sh))
              (λ a _ (s : Vault.VState unit), inr (s, a))
              Ex.OWNER Ex.vaultState) as (_ & H & _).
  apply H; [reflexivity | reflexivity | vm_compute; reflexivity].
Defined.
